(** * Query construction and partial updates of the job board backend

    A shallow embedding of [helpers/sql.js] and of the [Company] and [Job]
    models, and the properties of the SQL text and of the bound parameter
    arrays they build.  Database access goes through one primitive,
    [db.query(text, params)]; a model method is a program over that
    primitive, run against an arbitrary executor. *)

From Stdlib Require Import String Ascii List Bool ZArith Lia.
From Stdlib Require Import Decimal DecimalString DecimalNat DecimalZ.
From Stdlib Require Import Sorted Permutation.
Import ListNotations.
Open Scope string_scope.

Set Implicit Arguments.

(** ** JavaScript values and objects *)

Module JS.

(** [Number.isSafeInteger(z)] *)
Definition safe_integer (z : Z) : bool := Z.leb (Z.abs z) 9007199254740991.

(** The values that travel through the models: request bodies, query
    strings and bound parameters.  Numbers are the safe integers, which a
    template literal prints in plain decimal notation; fractions, arrays
    and nested objects are left out. *)
Inductive value : Type :=
| VUndefined
| VNull
| VBool (b : bool)
| VNumber (z : Z) (safe : safe_integer z = true)
| VStr (s : string).

Arguments VNumber z safe : clear implicits.

(** A number literal. *)
Notation "'VNum' z" := (VNumber z eq_refl) (at level 10, z at level 9).

Definition value_eqb (v w : value) : bool :=
  match v, w with
  | VUndefined, VUndefined => true
  | VNull, VNull => true
  | VBool a, VBool b => Bool.eqb a b
  | VNumber a _, VNumber b _ => Z.eqb a b
  | VStr a, VStr b => String.eqb a b
  | _, _ => false
  end.

(** [v === w] *)
Definition strict_eq := value_eqb.

(** [!!v] *)
Definition truthy (v : value) : bool :=
  match v with
  | VUndefined | VNull => false
  | VBool b => b
  | VNumber z _ => negb (Z.eqb z 0)
  | VStr s => negb (String.eqb s "")
  end.

(** Decimal rendering of an array index or a length. *)
Definition string_of_nat (n : nat) : string :=
  NilZero.string_of_uint (Nat.to_uint n).

(** [`${v}`] *)
Definition toString (v : value) : string :=
  match v with
  | VUndefined => "undefined"
  | VNull => "null"
  | VBool true => "true"
  | VBool false => "false"
  | VNumber z _ => NilZero.string_of_int (Z.to_int z)
  | VStr s => s
  end.

(** An object is the list of its own properties in enumeration order,
    which is the order [Object.keys] and [Object.values] share. *)
Definition object : Type := list (string * value).

Definition keys (o : object) : list string := map fst o.
Definition values (o : object) : list value := map snd o.

(** [o[k]]: [undefined] when the property is absent. *)
Fixpoint get (o : object) (k : string) : value :=
  match o with
  | [] => VUndefined
  | (k', v) :: o' => if String.eqb k' k then v else get o' k
  end.

(** The own property [k] of [o], if it has one. *)
Fixpoint own (o : object) (k : string) : option value :=
  match o with
  | [] => None
  | (k', v) :: o' => if String.eqb k' k then Some v else own o' k
  end.

(** What a template literal prints for [o[k]] when [o], an object literal,
    has no own property [k] but inherits one from [Object.prototype]: a
    native function prints as its header and a native body, the
    prototype itself as an object. *)
Definition inherited (k : string) : option string :=
  if String.eqb k "__proto__" then Some "[object Object]"
  else if String.eqb k "constructor"
  then Some "function Object() { [native code] }"
  else if (fix mem (l : list string) : bool :=
             match l with
             | [] => false
             | name :: l' => String.eqb name k || mem l'
             end)
            ["toString"; "toLocaleString"; "valueOf"; "hasOwnProperty";
             "isPrototypeOf"; "propertyIsEnumerable"; "__defineGetter__";
             "__defineSetter__"; "__lookupGetter__"; "__lookupSetter__"]
  then Some ("function " ++ k ++ "() { [native code] }")
  else None.

(** [o[k] = v]: an existing property keeps its place, a new one goes
    last. *)
Fixpoint set (o : object) (k : string) (v : value) : object :=
  match o with
  | [] => [(k, v)]
  | (k', v') :: o' =>
      if String.eqb k' k then (k', v) :: o' else (k', v') :: set o' k v
  end.

(** [arr.indexOf(x) !== -1], on strings and on values. *)
Fixpoint str_mem (x : string) (arr : list string) : bool :=
  match arr with
  | [] => false
  | y :: arr' => String.eqb y x || str_mem x arr'
  end.

Fixpoint val_mem (x : value) (arr : list value) : bool :=
  match arr with
  | [] => false
  | y :: arr' => strict_eq y x || val_mem x arr'
  end.

(** [arr.map((x, idx) => f(x, idx))], counting from [i]. *)
Fixpoint mapi_from {A B : Type} (f : A -> nat -> B) (i : nat)
  (arr : list A) : list B :=
  match arr with
  | [] => []
  | x :: arr' => f x i :: mapi_from f (S i) arr'
  end.

Definition mapi {A B : Type} (f : A -> nat -> B) (arr : list A) : list B :=
  mapi_from f 0 arr.

(** [arr.join(sep)] on an array whose elements may be [undefined]:
    an [undefined] element contributes the empty string. *)
Definition join (sep : string) (arr : list (option string)) : string :=
  String.concat sep (map (fun x => match x with Some s => s | None => "" end) arr).

(** What a function receives for a parameter: a primitive value
    ([undefined] when the caller passes nothing) or an object. *)
Inductive argument : Type :=
| AValue (v : value)
| AObject (o : object).

(** [function f(query = d)]: the default stands in for [undefined]. *)
Definition default_to (d a : argument) : argument :=
  match a with
  | AValue VUndefined => d
  | _ => a
  end.

(** The index keys ["i"; "i+1"; ...] of the characters of a string. *)
Fixpoint index_keys (i : nat) (s : string) : list string :=
  match s with
  | EmptyString => []
  | String _ s' => string_of_nat i :: index_keys (S i) s'
  end.

Fixpoint chars (s : string) : list value :=
  match s with
  | EmptyString => []
  | String c s' => VStr (String c EmptyString) :: chars s'
  end.

(** [Object.keys(a)]: a [TypeError] on [undefined] and [null]. *)
Definition object_keys (a : argument) : option (list string) :=
  match a with
  | AValue VUndefined | AValue VNull => None
  | AValue (VStr s) => Some (index_keys 0 s)
  | AValue _ => Some []
  | AObject o => Some (keys o)
  end.

(** [Object.values(a)], where [Object.keys(a)] is defined. *)
Definition object_values (a : argument) : list value :=
  match a with
  | AValue (VStr s) => chars s
  | AValue _ => []
  | AObject o => values o
  end.

(** [a.k] for the property names the models read, none of which a
    primitive has. *)
Definition prop (a : argument) (k : string) : value :=
  match a with
  | AValue _ => VUndefined
  | AObject o => get o k
  end.

(** [!!a] *)
Definition arg_truthy (a : argument) : bool :=
  match a with
  | AValue v => truthy v
  | AObject _ => true
  end.

(** [if (a.k) a.k = `%${a.k}%`]: the caller's object is updated in
    place. *)
Definition wrap_if_truthy (a : argument) (k : string) : argument :=
  match a with
  | AValue _ => a
  | AObject o =>
      if truthy (get o k)
      then AObject (set o k (VStr ("%" ++ toString (get o k) ++ "%")))
      else a
  end.

End JS.

Import JS.

(** The double quote character, and the one-character string. *)
Definition dquote : ascii := Eval cbv in ascii_of_nat 34.
Definition dq : string := String dquote "".

(** ** Errors and the database primitive *)

(** [expressError.js] supplies the [BadRequestError] and [NotFoundError]
    classes; [TypeError] is the engine's own, and [DbError] is a query the
    database rejects. *)
Inductive error : Type :=
| BadRequestError (message : string)
| NotFoundError (message : string)
| TypeError (message : string)
| DbError (message : string).

(** A result row is an object, hence always truthy. *)
Definition row : Type := JS.object.

(** A model method: it returns, throws, or awaits [db.query] and goes on
    with the rows of the result. *)
Inductive db (A : Type) : Type :=
| Ret (a : A)
| Throw (e : error)
| Query (text : string) (params : list value) (k : list row -> db A).

Arguments Ret {A} a.
Arguments Throw {A} e.
Arguments Query {A} text params k.

Fixpoint bind {A B : Type} (m : db A) (f : A -> db B) : db B :=
  match m with
  | Ret a => f a
  | Throw e => Throw e
  | Query text params k => Query text params (fun rows => bind (k rows) f)
  end.

Declare Scope db_scope.
Delimit Scope db_scope with db.
Notation "x <- m ;; k" := (bind m (fun x => k))
  (at level 61, m at next level, right associativity) : db_scope.

(** [const result = await db.query(text, params)], then [result.rows]. *)
Definition db_query (text : string) (params : list value) : db (list row) :=
  Query text params (fun rows => Ret rows).

(** [rows[0]] *)
Definition first_row (rows : list row) : option row := hd_error rows.

(** One call of [db.query] as the database saw it. *)
Record call : Type := Call { call_text : string; call_params : list value }.

Section Run.

(** The database: a store and what it answers to a statement, rows or a
    rejection. *)
Variable store : Type.
Variable execute : store -> string -> list value -> store * (error + list row).

(** Runs a method on a store; the calls made are recorded in order. *)
Fixpoint run {A : Type} (m : db A) (st : store) : store * list call * (error + A) :=
  match m with
  | Ret a => (st, [], inr a)
  | Throw e => (st, [], inl e)
  | Query text params k =>
      match execute st text params with
      | (st', inl e) => (st', [Call text params], inl e)
      | (st', inr rows) =>
          let '(st'', calls, res) := run (k rows) st' in
          (st'', Call text params :: calls, res)
      end
  end.

Definition calls_of {A : Type} (m : db A) (st : store) : list call :=
  snd (fst (run m st)).

Definition result_of {A : Type} (m : db A) (st : store) : error + A :=
  snd (run m st).

End Run.

(** ** helpers/sql.js *)

Record partial_update : Type :=
  { setCols : string; values : list value }.

(** [jsToSql[colName] || colName], as the template literal renders it.
    The table is an object literal: a name it has no own property for is
    looked up in [Object.prototype], whose members are truthy. *)
Definition column_name (jsToSql : JS.object) (colName : string) : string :=
  match JS.own jsToSql colName with
  | Some c => if JS.truthy c then JS.toString c else colName
  | None =>
      match JS.inherited colName with
      | Some text => text
      | None => colName
      end
  end.

Definition sqlForPartialUpdate (dataToUpdate jsToSql : JS.object)
  : error + partial_update :=
  let keys := JS.keys dataToUpdate in
  if Nat.eqb (length keys) 0 then inl (BadRequestError "No data") else
  let cols :=
    JS.mapi (fun colName idx =>
               dq ++ column_name jsToSql colName ++ dq ++ "=$"
                  ++ JS.string_of_nat (idx + 1)) keys in
  inr {| setCols := String.concat ", " cols;
         values := JS.values dataToUpdate |}.

(** A synchronous step that may throw, inside a method. *)
Definition lift {A : Type} (r : error + A) : db A :=
  match r with
  | inl e => Throw e
  | inr a => Ret a
  end.

Definition keys_of (a : argument) : error + list string :=
  match JS.object_keys a with
  | None => inl (TypeError "Cannot convert undefined or null to object")
  | Some ks => inr ks
  end.

Local Open Scope db_scope.

(** ** models/job.js, the version with the equity comparison *)

Module Job.

Definition makeKeyStatementsForWhereClauses (query : argument)
  (key : string) (idx : nat) : option string :=
  let equityAmt :=
    if JS.strict_eq (JS.prop query "hasEquity") (VStr "false")
       || negb (JS.truthy (JS.prop query "hasEquity"))
    then "=" else ">" in
  if String.eqb key "title"
  then Some (" " ++ key ++ " ILIKE $" ++ JS.string_of_nat (idx + 1))
  else if String.eqb key "minSalary"
  then Some ("salary >= $" ++ JS.string_of_nat (idx + 1))
  else if String.eqb key "hasEquity"
  then Some ("equity " ++ equityAmt ++ " $" ++ JS.string_of_nat (idx + 1))
  else None.

Definition validParams : list string := ["title"; "minSalary"; "hasEquity"].

Definition invalid_message (invalidKeys : list string) : string :=
  "These parameters in your query 
                                                       string are invalid: [" ++ String.concat "," invalidKeys ++ "]".

Definition checkForBadQueries (keys : list string) : error + unit :=
  let invalidKeys := filter (fun k => negb (JS.str_mem k validParams)) keys in
  if negb (Nat.eqb (length invalidKeys) 0)
  then inl (BadRequestError (invalid_message invalidKeys))
  else inr tt.

Definition insert_sql : string :=
  "INSERT INTO jobs
         (title, salary, equity, company_handle)
         VALUES
         ($1, $2, $3, $4)
         RETURNING title, salary, equity, company_handle AS companyHandle".

Definition create (data : JS.object) : db (option row) :=
  rows <- db_query insert_sql
            [JS.get data "title"; JS.get data "salary";
             JS.get data "equity"; JS.get data "companyHandle"] ;;
  Ret (first_row rows).

Definition select_sql (whereClause : string) : string :=
  "SELECT title, salary, equity, company_handle AS companyHandle
       FROM jobs
       " ++ whereClause ++ "
       ORDER BY title".

Definition where_clause (query : argument) (keys : list string) : string :=
  let queryKeys :=
    JS.join " AND "
      (JS.mapi (fun key idx => makeKeyStatementsForWhereClauses query key idx)
         keys) in
  if negb (Nat.eqb (String.length queryKeys) 0)
  then "WHERE " ++ queryKeys else "".

(** [[true, false, 'true', 'false']] *)
Definition flags : list value :=
  [VBool true; VBool false; VStr "true"; VStr "false"].

(** The array bound to the statement, read off [query] after the title
    has been wrapped. *)
Definition bound_values (query : argument) : list value :=
  let values :=
    filter (fun v => negb (JS.val_mem v flags)) (JS.object_values query) in
  if negb (JS.strict_eq (JS.prop query "hasEquity") VUndefined)
  then values ++ [VStr "0"] else values.

(** [findAll(query = {})] *)
Definition findAll (query : argument) : db (list row) :=
  let query := JS.default_to (AObject []) query in
  keys <- lift (keys_of query) ;;
  _ <- lift (checkForBadQueries keys) ;;
  let whereClause := where_clause query keys in
  let query := JS.wrap_if_truthy query "title" in
  let values := bound_values query in
  rows <- db_query (select_sql whereClause) values ;;
  Ret rows.

(** The caller's object once [findAll] has run to its query. *)
Definition query_after (query : argument) : argument :=
  JS.wrap_if_truthy (JS.default_to (AObject []) query) "title".

Definition update_sql (setCols handleVarIdx : string) : string :=
  "UPDATE jobs 
                      SET " ++ setCols ++ " 
                      WHERE title = " ++ handleVarIdx ++ " 
                      RETURNING title, 
                                salary, 
                                equity, 
                                company_handle AS companyHandle".

Definition jsToSql : JS.object := [("companyHandle", VStr "company_handle")].

Definition update (title : value) (data : JS.object) : db row :=
  u <- lift (sqlForPartialUpdate data jsToSql) ;;
  let handleVarIdx := "$" ++ JS.string_of_nat (length (values u) + 1) in
  let querySql := update_sql (setCols u) handleVarIdx in
  rows <- db_query querySql (values u ++ [title]) ;;
  match first_row rows with
  | None => Throw (NotFoundError ("No company: " ++ JS.toString title))
  | Some job => Ret job
  end.

Definition get_sql : string :=
  "SELECT title, salary, equity, company_handle AS companyHandle
       FROM jobs
       WHERE title = $1".

Definition get (title : value) : db row :=
  rows <- db_query get_sql [title] ;;
  match first_row rows with
  | None =>
      Throw (NotFoundError
               ("No job with the following title: " ++ JS.toString title))
  | Some job => Ret job
  end.

Definition remove_sql : string :=
  "DELETE
           FROM jobs
           WHERE title = $1
           RETURNING title".

Definition remove (title : value) : db unit :=
  rows <- db_query remove_sql [title] ;;
  match first_row rows with
  | None => Throw (NotFoundError ("No company: " ++ JS.toString title))
  | Some _ => Ret tt
  end.

End Job.

(** ** src/models/job.js, the version that binds the query values as they
    come *)

Module ModelsJob.

Definition makeKeyStatementsForWhereClauses (key : string) (idx : nat)
  : option string :=
  if String.eqb key "title"
  then Some (" " ++ key ++ " ILIKE $" ++ JS.string_of_nat (idx + 1))
  else if String.eqb key "minSalary"
  then Some ("salary >= $" ++ JS.string_of_nat (idx + 1))
  else if String.eqb key "hasEquity"
  then Some ("equity = $" ++ JS.string_of_nat (idx + 1))
  else None.

Definition validParams : list string := ["title"; "minSalary"; "hasEquity"].

Definition checkForBadQueries (query : argument) (keys : list string)
  : error + unit :=
  let invalidKeys := filter (fun k => negb (JS.str_mem k validParams)) keys in
  if negb (Nat.eqb (length invalidKeys) 0)
  then inl (BadRequestError (Job.invalid_message invalidKeys))
  else inr tt.

Definition findAll (query : argument) : db (list row) :=
  let query := JS.default_to (AObject []) query in
  keys <- lift (keys_of query) ;;
  _ <- lift (checkForBadQueries query keys) ;;
  let queryKeys :=
    JS.join " AND "
      (JS.mapi (fun key idx => makeKeyStatementsForWhereClauses key idx) keys) in
  let values := JS.object_values query in
  let whereClause :=
    if negb (Nat.eqb (String.length queryKeys) 0)
    then "WHERE " ++ queryKeys else "" in
  rows <- db_query (Job.select_sql whereClause) values ;;
  Ret rows.

End ModelsJob.

(** ** models/company.js *)

Module Company.

(** The source also writes a line to the console here. *)
Definition makeKeyStatementsForWhereClauses (key : string) (idx : nat)
  : option string :=
  if String.eqb key "name"
  then Some (" " ++ key ++ " ILIKE $" ++ JS.string_of_nat (idx + 1))
  else if String.eqb key "minEmployees"
  then Some ("num_employees >= $" ++ JS.string_of_nat (idx + 1))
  else if String.eqb key "maxEmployees"
  then Some ("num_employees <= $" ++ JS.string_of_nat (idx + 1))
  else None.

Definition duplicate_sql : string :=
  "SELECT handle
           FROM companies
           WHERE handle = $1".

Definition insert_sql : string :=
  "INSERT INTO companies
           (handle, name, description, num_employees, logo_url)
           VALUES ($1, $2, $3, $4, $5)
           RETURNING handle, name, description, num_employees AS " ++ dq ++ "numEmployees" ++ dq ++ ", logo_url AS " ++ dq ++ "logoUrl" ++ dq.

Definition create (data : JS.object) : db (option row) :=
  let handle := JS.get data "handle" in
  duplicateCheck <- db_query duplicate_sql [handle] ;;
  match first_row duplicateCheck with
  | Some _ =>
      Throw (BadRequestError ("Duplicate company: " ++ JS.toString handle))
  | None =>
      rows <- db_query insert_sql
                [handle; JS.get data "name"; JS.get data "description";
                 JS.get data "numEmployees"; JS.get data "logoUrl"] ;;
      Ret (first_row rows)
  end.

Definition validParams : list string := ["name"; "minEmployees"; "maxEmployees"].

Definition invalid_message (invalidKeys : list string) : string :=
  "These parameters in your query 
                                                       string are invalid: [" ++ String.concat "," invalidKeys ++ "]".

Definition all_sql : string :=
  "SELECT handle,
                name,
                description,
                num_employees AS " ++ dq ++ "numEmployees" ++ dq ++ ",
                logo_url AS " ++ dq ++ "logoUrl" ++ dq ++ "
         FROM companies
         ORDER BY name".

Definition filtered_sql (queryKeys : string) : string :=
  "SELECT handle,
                name,
                description,
                num_employees AS " ++ dq ++ "numEmployees" ++ dq ++ ",
                logo_url AS " ++ dq ++ "logoUrl" ++ dq ++ "
         FROM companies
         WHERE " ++ queryKeys ++ "
         ORDER BY name".

(** [findAll(query = null)].  The full listing is sent with no parameter
    array, which binds nothing. *)
Definition findAll (query : argument) : db (list row) :=
  let query := JS.default_to (AValue VNull) query in
  keys <- lift (keys_of query) ;;
  let invalidKeys := filter (fun k => negb (JS.str_mem k validParams)) keys in
  if negb (Nat.eqb (length invalidKeys) 0)
  then Throw (BadRequestError (invalid_message invalidKeys))
  else if negb (JS.arg_truthy query)
  then
    rows <- db_query all_sql [] ;;
    Ret rows
  else
    let queryKeys :=
      JS.join " AND "
        (JS.mapi (fun key idx => makeKeyStatementsForWhereClauses key idx)
           keys) in
    let query := JS.wrap_if_truthy query "name" in
    let values := JS.object_values query in
    rows <- db_query (filtered_sql queryKeys) values ;;
    Ret rows.

Definition update_sql (setCols handleVarIdx : string) : string :=
  "UPDATE companies 
                      SET " ++ setCols ++ " 
                      WHERE handle = " ++ handleVarIdx ++ " 
                      RETURNING handle, 
                                name, 
                                description, 
                                num_employees AS " ++ dq ++ "numEmployees" ++ dq ++ ", 
                                logo_url AS " ++ dq ++ "logoUrl" ++ dq.

Definition jsToSql : JS.object :=
  [("numEmployees", VStr "num_employees"); ("logoUrl", VStr "logo_url")].

Definition update (handle : value) (data : JS.object) : db row :=
  u <- lift (sqlForPartialUpdate data jsToSql) ;;
  let handleVarIdx := "$" ++ JS.string_of_nat (length (values u) + 1) in
  let querySql := update_sql (setCols u) handleVarIdx in
  rows <- db_query querySql (values u ++ [handle]) ;;
  match first_row rows with
  | None => Throw (NotFoundError ("No company: " ++ JS.toString handle))
  | Some company => Ret company
  end.

Definition get_sql : string :=
  "SELECT handle,
                  name,
                  description,
                  num_employees AS " ++ dq ++ "numEmployees" ++ dq ++ ",
                  logo_url AS " ++ dq ++ "logoUrl" ++ dq ++ "
           FROM companies
           WHERE handle = $1".

Definition get (handle : value) : db row :=
  rows <- db_query get_sql [handle] ;;
  match first_row rows with
  | None => Throw (NotFoundError ("No company: " ++ JS.toString handle))
  | Some company => Ret company
  end.

Definition remove_sql : string :=
  "DELETE
           FROM companies
           WHERE handle = $1
           RETURNING handle".

Definition remove (handle : value) : db unit :=
  rows <- db_query remove_sql [handle] ;;
  match first_row rows with
  | None => Throw (NotFoundError ("No company: " ++ JS.toString handle))
  | Some _ => Ret tt
  end.

End Company.

Local Close Scope db_scope.

(** ** The two repositories *)

(** Positions are kept by the [Job] model, organizations by [Company]. *)
Inductive entity : Type := Position | Organization.

Definition findAll (e : entity) : argument -> db (list row) :=
  match e with
  | Position => Job.findAll
  | Organization => Company.findAll
  end.

Definition update (e : entity) : value -> JS.object -> db row :=
  match e with
  | Position => Job.update
  | Organization => Company.update
  end.

(** The keys a listing accepts: [validParams]. *)
Definition recognized (e : entity) : list string :=
  match e with
  | Position => Job.validParams
  | Organization => Company.validParams
  end.

(** The key matched with ILIKE, which is also the column listings are
    ordered by. *)
Definition display_key (e : entity) : string :=
  match e with
  | Position => "title"
  | Organization => "name"
  end.

(** The column [update] finds its row by. *)
Definition identifier_column (e : entity) : string :=
  match e with
  | Position => "title"
  | Organization => "handle"
  end.

Definition translation (e : entity) : JS.object :=
  match e with
  | Position => Job.jsToSql
  | Organization => Company.jsToSql
  end.

Definition update_sql (e : entity) : string -> string -> string :=
  match e with
  | Position => Job.update_sql
  | Organization => Company.update_sql
  end.

(** ** Reading SQL text back *)

(** Whether [needle] occurs in [hay]. *)
Fixpoint contains (needle hay : string) : bool :=
  String.prefix needle hay ||
  match hay with
  | EmptyString => false
  | String _ hay' => contains needle hay'
  end.

(** [k] occurs in [s] as written. *)
Definition occurs_in (k s : string) : Prop :=
  exists before after, s = before ++ k ++ after.

(** The statement's final clause is [ORDER BY col]. *)
Definition ordered_by (col text : string) : Prop :=
  exists body, text = body ++ "ORDER BY " ++ col.

Definition digit_of (c : ascii) : option nat :=
  let n := nat_of_ascii c in
  if Nat.leb 48 n && Nat.leb n 57 then Some (n - 48) else None.

(** The lexer of a SET clause.  Text between double quotes is an
    identifier; outside of them, a dollar sign followed by digits is a
    positional parameter.  Each state remembers the identifier closed
    last, the column the next parameter is assigned to. *)
Inductive lex_state : Type :=
| Outside (col : string)
| Quoted (acc : string)
| Dollar (col : string)
| Digits (col : string) (n : nat).

Definition outside_step (col : string) (c : ascii) : lex_state :=
  if Ascii.eqb c dquote then Quoted ""
  else if Ascii.eqb c "$" then Dollar col
  else Outside col.

Fixpoint lex (st : lex_state) (text : string) : list (string * nat) :=
  match text with
  | EmptyString =>
      match st with
      | Digits col n => [(col, n)]
      | _ => []
      end
  | String c text' =>
      match st with
      | Outside col => lex (outside_step col c) text'
      | Quoted acc =>
          if Ascii.eqb c dquote then lex (Outside acc) text'
          else lex (Quoted (acc ++ String c "")) text'
      | Dollar col =>
          match digit_of c with
          | Some d => lex (Digits col d) text'
          | None => lex (outside_step col c) text'
          end
      | Digits col n =>
          match digit_of c with
          | Some d => lex (Digits col (10 * n + d)) text'
          | None => (col, n) :: lex (outside_step col c) text'
          end
      end
  end.

(** The assignments of a SET clause, left to right: the quoted column and
    the ordinal of the parameter assigned to it. *)
Definition assignments (setCols : string) : list (string * nat) :=
  lex (Outside "") setCols.

(** The parameter ordinals of a SET clause, left to right. *)
Definition placeholders (setCols : string) : list nat :=
  map snd (assignments setCols).

(** A name that can stand between double quotes. *)
Fixpoint quote_free (name : string) : bool :=
  match name with
  | EmptyString => true
  | String c name' => negb (Ascii.eqb c dquote) && quote_free name'
  end.

(** ** The database behind [db.query] *)

Definition newline : ascii := Eval cbv in ascii_of_nat 10.

(** The text after the last line break. *)
Fixpoint last_line_from (line text : string) : string :=
  match text with
  | EmptyString => line
  | String c text' =>
      if Ascii.eqb c newline then last_line_from "" text'
      else last_line_from (line ++ String c "") text'
  end.

Definition last_line (text : string) : string := last_line_from "" text.

Fixpoint trim_left (text : string) : string :=
  match text with
  | EmptyString => ""
  | String c text' => if Ascii.eqb c " " then trim_left text' else text
  end.

(** The column of the ORDER BY clause on the last line of a statement. *)
Definition order_by_column (text : string) : option string :=
  let line := trim_left (last_line text) in
  if String.prefix "ORDER BY " line
  then Some (substring 9 (String.length line - 9) line)
  else None.

Section Database.

(** What the FROM and WHERE clauses of a statement select under the bound
    parameters, unless the server rejects the statement; and the order the
    server sorts a column in.  Both are the server's own. *)
Variable selects : string -> list value -> option (row -> bool).
Variable collation : value -> value -> bool.

Fixpoint insert_row (col : string) (r : row) (rows : list row) : list row :=
  match rows with
  | [] => [r]
  | r' :: rows' =>
      if collation (JS.get r col) (JS.get r' col)
      then r :: rows
      else r' :: insert_row col r rows'
  end.

Fixpoint sort_rows (col : string) (rows : list row) : list row :=
  match rows with
  | [] => []
  | r :: rows' => insert_row col r (sort_rows col rows')
  end.

(** Modelled from the spec: the parameterized-query executor ([db.js] and
    the database server behind it, which are not under src/), on SELECT
    statements.  [execute(sqlText, orderedParameters)] leaves the table as
    it is and returns the rows of it that the statement selects; a final
    ORDER BY clause puts them in ascending order of its column. *)
Definition select_rows (table : list row) (text : string)
  (params : list value) : list row * (error + list row) :=
  match selects text params with
  | None => (table, inl (DbError "the statement is rejected"))
  | Some keep =>
      let rows := filter keep table in
      (table,
       inr (match order_by_column text with
            | Some col => sort_rows col rows
            | None => rows
            end))
  end.


End Database.

(** A table of jobs with no constraint on the title: an INSERT appends
    the job and returns it, a SELECT by title returns the jobs of that
    title, and nothing else is understood. *)
Definition jobs_table (table : list row) (text : string) (params : list value)
  : list row * (error + list row) :=
  if String.eqb text
       "INSERT INTO jobs
         (title, salary, equity, company_handle)
         VALUES
         ($1, $2, $3, $4)
         RETURNING title, salary, equity, company_handle AS companyHandle"
  then
    let job := [("title", nth 0 params VUndefined);
                ("salary", nth 1 params VUndefined);
                ("equity", nth 2 params VUndefined);
                ("companyhandle", nth 3 params VUndefined)] in
    ((table ++ [job])%list, inr [job])
  else if String.eqb text
            "SELECT title, salary, equity, company_handle AS companyHandle
       FROM jobs
       WHERE title = $1"
  then
    (table,
     inr (filter (fun r => JS.strict_eq (JS.get r "title")
                             (nth 0 params VUndefined)) table))
  else (table, inl (DbError "the statement is not understood")).

(** A listing: the method throws, or makes one call whose statement ends
    with [ORDER BY col] and returns the rows of the answer as they come. *)
Definition ordered_listing (col : string) (m : db (list row)) : Prop :=
  (exists err, m = Throw err)
  \/ exists text params, m = db_query text params /\ ordered_by col text.

(** ** A database for the examples *)

(** The three jobs of the model tests, as [ORDER BY title] returns them. *)
Definition sample_jobs : list row :=
  [[("title", VStr "cook"); ("salary", VNum 90000);
    ("equity", VStr "0.0"); ("companyhandle", VStr "c2")];
   [("title", VStr "manager"); ("salary", VNum 75000);
    ("equity", VStr "0.10"); ("companyhandle", VStr "c1")];
   [("title", VStr "teacher"); ("salary", VNum 50000);
    ("equity", VStr "0.15"); ("companyhandle", VStr "c3")]].

(** A database that answers every statement with the three jobs. *)
Definition sample_execute (st : unit) (text : string) (params : list value)
  : unit * (error + list row) :=
  (st, inr sample_jobs).

(** The three jobs in the order the tests insert them. *)
Definition inserted_jobs : list row :=
  [[("title", VStr "manager"); ("salary", VNum 75000);
    ("equity", VStr "0.10"); ("companyhandle", VStr "c1")];
   [("title", VStr "cook"); ("salary", VNum 90000);
    ("equity", VStr "0.0"); ("companyhandle", VStr "c2")];
   [("title", VStr "teacher"); ("salary", VNum 50000);
    ("equity", VStr "0.15"); ("companyhandle", VStr "c3")]].

(** Strings in lexicographic order of their characters. *)
Definition sample_collation (v w : value) : bool :=
  String.leb (JS.toString v) (JS.toString w).

(** ** routes/jobs.js *)

Module JobRoutes.

(** What a handler reads of the request.  [req.params] holds the segment
    of the path under the name the route pattern gives it. *)
Record request : Type :=
  { params : JS.object; query : argument; body : JS.object }.

(** [{ job }], [{ jobs }] and [{ deleted }] *)
Inductive payload : Type :=
| PJob (job : option row)
| PJobs (jobs : list row)
| PDeleted (title : value).

Record response : Type := { status : nat; json : payload }.

(** How a handler ends: it sends a response, or it hands [next] the error
    it caught, which for a body the schema rejects is a [BadRequestError]
    made of the list of the validator's messages. *)
Inductive outcome : Type :=
| Send (r : response)
| Next (err : error)
| NextBadRequest (errs : list string).

(** [try { ... return send(await m) } catch (err) { return next(err) }] *)
Fixpoint try_catch {A : Type} (m : db A) (send : A -> response) : db outcome :=
  match m with
  | Ret a => Ret (Send (send a))
  | Throw err => Ret (Next err)
  | Query text params0 k =>
      Query text params0 (fun rows => try_catch (k rows) send)
  end.

(** The parameter a route pattern binds: ["/:title"] for GET and PATCH,
    ["/:handle"] for DELETE. *)
Definition path_params (name segment : string) : JS.object :=
  [(name, VStr segment)].

Definition get_pattern : string := "title".
Definition patch_pattern : string := "title".
Definition delete_pattern : string := "handle".

Section Handlers.

(** [jsonschema.validate(body, schema).errors.map(e => e.stack)] for the
    two schemas; the body is valid when the list is empty. *)
Variable jobNewSchema : JS.object -> list string.
Variable jobUpdateSchema : JS.object -> list string.

(** [router.post("/")]; the source also writes the job to the console. *)
Definition post (req : request) : db outcome :=
  match jobNewSchema (body req) with
  | (_ :: _) as errs => Ret (NextBadRequest errs)
  | [] =>
      try_catch (Job.create (body req))
        (fun job => {| status := 201; json := PJob job |})
  end.

(** [router.get("/")] *)
Definition get_all (req : request) : db outcome :=
  try_catch (Job.findAll (query req))
    (fun jobs => {| status := 200; json := PJobs jobs |}).

(** [router.get("/:title")] *)
Definition get_one (req : request) : db outcome :=
  try_catch (Job.get (JS.get (params req) "title"))
    (fun job => {| status := 200; json := PJob (Some job) |}).

(** [router.patch("/:title")] *)
Definition patch (req : request) : db outcome :=
  match jobUpdateSchema (body req) with
  | (_ :: _) as errs => Ret (NextBadRequest errs)
  | [] =>
      try_catch (Job.update (JS.get (params req) "title") (body req))
        (fun job => {| status := 200; json := PJob (Some job) |})
  end.

(** [router.delete("/:handle")] *)
Definition delete (req : request) : db outcome :=
  try_catch (Job.remove (JS.get (params req) "title"))
    (fun _ => {| status := 200; json := PDeleted (JS.get (params req) "title") |}).

End Handlers.

End JobRoutes.

(** A handler run on a store: a statement the database rejects inside the
    [try] block is caught and handed to [next] as well. *)
Definition serve {store : Type}
  (execute : store -> string -> list value -> store * (error + list row))
  (handler : db JobRoutes.outcome) (st : store)
  : store * list call * JobRoutes.outcome :=
  match run execute handler st with
  | (st', calls, inl err) => (st', calls, JobRoutes.Next err)
  | (st', calls, inr o) => (st', calls, o)
  end.

(** ** More of the two repositories *)

Definition get_of (e : entity) : value -> db row :=
  match e with
  | Position => Job.get
  | Organization => Company.get
  end.

Definition remove_of (e : entity) : value -> db unit :=
  match e with
  | Position => Job.remove
  | Organization => Company.remove
  end.

Definition get_sql (e : entity) : string :=
  match e with
  | Position => Job.get_sql
  | Organization => Company.get_sql
  end.

Definition remove_sql (e : entity) : string :=
  match e with
  | Position => Job.remove_sql
  | Organization => Company.remove_sql
  end.

(** ** More on reading SQL text back *)

(** Text with no double quote and no dollar sign: the lexer goes through
    it without a change of state. *)
Fixpoint plain (text : string) : bool :=
  match text with
  | EmptyString => true
  | String c text' =>
      negb (Ascii.eqb c dquote) && negb (Ascii.eqb c "$") && plain text'
  end.

(** What [findAll] binds for one property of the query: the value
    between percent signs under the ILIKE key when it is truthy, the value
    itself otherwise. *)
Definition bound_value (key : string) (p : string * value) : value :=
  if String.eqb (fst p) key && JS.truthy (snd p)
  then VStr ("%" ++ JS.toString (snd p) ++ "%")
  else snd p.

(** * Properties *)

(** ** Strings *)

Lemma append_empty_r (s : string) : s ++ "" = s.
Proof. induction s as [|c s IH]; simpl; [reflexivity | now rewrite IH]. Qed.

Lemma append_assoc (s t u : string) : (s ++ t) ++ u = s ++ t ++ u.
Proof. induction s as [|c s IH]; simpl; [reflexivity | now rewrite IH]. Qed.

Lemma occurs_in_concat (sep k : string) (l : list string) :
  In k l -> occurs_in k (String.concat sep l).
Proof.
  induction l as [|x l IH]; intros Hin; [contradiction|].
  destruct Hin as [-> | Hin].
  - destruct l as [|y l].
    + exists "", "". simpl. now rewrite append_empty_r.
    + exists "", (sep ++ String.concat sep (y :: l)). reflexivity.
  - destruct l as [|y l]; [contradiction|].
    destruct (IH Hin) as (b & a & E).
    exists (x ++ sep ++ b), a.
    change (String.concat sep (x :: y :: l))
      with (x ++ sep ++ String.concat sep (y :: l)).
    rewrite E. now rewrite !append_assoc.
Qed.

Lemma occurs_in_context (k s before after : string) :
  occurs_in k s -> occurs_in k (before ++ s ++ after).
Proof.
  intros (b & a & ->). exists (before ++ b), (a ++ after).
  now rewrite !append_assoc.
Qed.

(** ** The SET clause lexer on what [sqlForPartialUpdate] writes *)

Lemma lex_quoted (name : string) :
  forall acc rest,
    quote_free name = true ->
    lex (Quoted acc) (name ++ String dquote rest) = lex (Outside (acc ++ name)) rest.
Proof.
  induction name as [|c name IH]; intros acc rest Hq.
  - cbn [append lex]. rewrite Ascii.eqb_refl. now rewrite append_empty_r.
  - cbn [quote_free] in Hq. apply andb_true_iff in Hq as [Hc Hq].
    apply negb_true_iff in Hc.
    cbn [append lex]. rewrite Hc, IH by assumption.
    rewrite append_assoc. reflexivity.
Qed.

Lemma lex_digits (d : uint) :
  forall col n rest,
    lex (Digits col n) (NilEmpty.string_of_uint d ++ rest)
    = lex (Digits col (Nat.of_uint_acc d n)) rest.
Proof.
  induction d; intros col n rest; simpl; [reflexivity | ..];
    rewrite IHd, Nat.tail_mul_spec;
    match goal with
    | |- lex (Digits _ (Nat.of_uint_acc _ ?a)) _
         = lex (Digits _ (Nat.of_uint_acc _ ?b)) _ =>
        replace a with b by lia
    end; reflexivity.
Qed.

Lemma lex_dollar (d : uint) (col rest : string) :
  lex (Dollar col) (NilZero.string_of_uint d ++ rest)
  = lex (Digits col (Nat.of_uint d)) rest.
Proof.
  destruct d; [reflexivity | ..];
    unfold NilZero.string_of_uint, Nat.of_uint; simpl;
    rewrite lex_digits; reflexivity.
Qed.

Lemma lex_ordinal (k : nat) (col rest : string) :
  lex (Dollar col) (JS.string_of_nat k ++ rest) = lex (Digits col k) rest.
Proof.
  unfold JS.string_of_nat. rewrite lex_dollar.
  now rewrite DecimalNat.Unsigned.of_to.
Qed.

(** One fragment ["col"=$k] of the clause. *)
Lemma lex_fragment (col0 col : string) (k : nat) (rest : string) :
  quote_free col = true ->
  lex (Outside col0) ((dq ++ col ++ dq ++ "=$" ++ JS.string_of_nat k) ++ rest)
  = lex (Digits col k) rest.
Proof.
  intros Hq.
  rewrite !append_assoc. unfold dq. cbn [append lex].
  change (outside_step col0 dquote) with (Quoted "").
  rewrite lex_quoted by assumption. cbn [append lex].
  change (outside_step col "=") with (Outside col). cbn [lex].
  change (outside_step col "$") with (Dollar col).
  apply lex_ordinal.
Qed.

Lemma lex_set_clause (jsToSql : JS.object) (keys : list string) :
  forall col0 i,
    forallb (fun k => quote_free (column_name jsToSql k)) keys = true ->
    lex (Outside col0)
      (String.concat ", "
         (JS.mapi_from (fun colName idx =>
                          dq ++ column_name jsToSql colName ++ dq ++ "=$"
                             ++ JS.string_of_nat (idx + 1)) i keys))
    = combine (map (column_name jsToSql) keys) (seq (i + 1) (length keys)).
Proof.
  induction keys as [|k keys IH]; intros col0 i Hq; [reflexivity|].
  simpl in Hq. apply andb_true_iff in Hq as [Hk Hq].
  destruct keys as [|k' keys].
  - cbn [JS.mapi_from String.concat map length seq combine].
    match goal with
    | |- lex _ ?frag = _ => rewrite <- (append_empty_r frag)
    end.
    now rewrite lex_fragment.
  - specialize (IH (column_name jsToSql k) (S i) Hq).
    cbn [JS.mapi_from String.concat] in IH |- *.
    rewrite lex_fragment by assumption.
    cbn [lex append].
    change (digit_of ",") with (@None nat). cbn iota.
    change (outside_step (column_name jsToSql k) ",")
      with (Outside (column_name jsToSql k)).
    change (outside_step (column_name jsToSql k) " ")
      with (Outside (column_name jsToSql k)).
    cbn [map length seq combine]. f_equal.
    replace (S (i + 1)) with (S i + 1) by lia.
    exact IH.
Qed.

Lemma length_keys (o : JS.object) : length (JS.keys o) = length o.
Proof. apply length_map. Qed.

Lemma length_values (o : JS.object) : length (JS.values o) = length o.
Proof. apply length_map. Qed.

Lemma map_snd_columns {A B : Type} (f : A -> B) (l : list A) (s : nat) :
  map snd (combine (map f l) (seq s (length l))) = seq s (length l).
Proof.
  revert s. induction l as [|x l IH]; intros s; simpl; [reflexivity|].
  now rewrite IH.
Qed.

Lemma nth_error_columns (f : string -> string) (o : JS.object) :
  forall s i k v,
    nth_error o i = Some (k, v) ->
    nth_error (combine (map f (JS.keys o)) (seq s (length (JS.keys o)))) i
    = Some (f k, s + i).
Proof.
  induction o as [|[k' v'] o IH]; intros s i k v H.
  - destruct i; discriminate.
  - destruct i as [|i]; simpl in *.
    + injection H as -> ->. now rewrite Nat.add_0_r.
    + rewrite (IH (S s) i k v H). f_equal. f_equal. lia.
Qed.

Lemma nth_error_values (o : JS.object) (i : nat) (k : string) (v : value) :
  nth_error o i = Some (k, v) -> nth_error (JS.values o) i = Some v.
Proof.
  intros H. unfold JS.values. now rewrite (map_nth_error snd i o H).
Qed.

(** ** helpers/sql.js *)

(** X18.  For every non-empty update payload and every translation
    table under which no column name holds a double quote,
    [sqlForPartialUpdate] returns a [setCols] text that reads back as one
    parameter per returned value, the ordinals being 1, 2, ..., n from left
    to right, and the i-th parameter is assigned to the column of the i-th
    key, whose value is the i-th of [values]. *)
Theorem sqlForPartialUpdate_placeholders (dataToUpdate jsToSql : JS.object) :
  dataToUpdate <> [] ->
  forallb (fun k => quote_free (column_name jsToSql k)) (JS.keys dataToUpdate)
  = true ->
  exists u,
    sqlForPartialUpdate dataToUpdate jsToSql = inr u
    /\ length (placeholders (setCols u)) = length (values u)
    /\ placeholders (setCols u) = seq 1 (length (values u))
    /\ forall i k v,
        nth_error dataToUpdate i = Some (k, v) ->
        nth_error (assignments (setCols u)) i
        = Some (column_name jsToSql k, i + 1)
        /\ nth_error (values u) i = Some v.
Proof.
  intros Hne Hq.
  unfold sqlForPartialUpdate.
  destruct dataToUpdate as [|kv data]; [contradiction|].
  cbn [JS.keys map length Nat.eqb].
  eexists. split; [reflexivity|].
  cbn [setCols values].
  assert (E : assignments
                (String.concat ", "
                   (JS.mapi (fun colName idx =>
                               dq ++ column_name jsToSql colName ++ dq ++ "=$"
                                  ++ JS.string_of_nat (idx + 1))
                      (fst kv :: map fst data)))
              = combine (map (column_name jsToSql) (JS.keys (kv :: data)))
                  (seq 1 (length (JS.keys (kv :: data))))).
  { unfold assignments, JS.mapi. now rewrite lex_set_clause. }
  unfold placeholders. rewrite E.
  assert (L : length (JS.keys (kv :: data)) = length (JS.values (kv :: data))).
  { now rewrite length_keys, length_values. }
  rewrite <- L, map_snd_columns.
  split; [now rewrite length_seq|].
  split; [reflexivity|].
  intros i k v H. split.
  - rewrite (nth_error_columns (column_name jsToSql) (kv :: data) 1 i H).
    do 2 f_equal. lia.
  - exact (nth_error_values (kv :: data) i H).
Qed.

Lemma sqlForPartialUpdate_placeholders_witness :
  [("firstName", VStr "Aliya"); ("age", VNum 32)] <> []
  /\ exists u,
      sqlForPartialUpdate [("firstName", VStr "Aliya"); ("age", VNum 32)]
        [("firstName", VStr "first_name")] = inr u
      /\ length (placeholders (setCols u)) = length (values u)
      /\ placeholders (setCols u) = seq 1 (length (values u))
      /\ forall i k v,
          nth_error [("firstName", VStr "Aliya"); ("age", VNum 32)] i
          = Some (k, v) ->
          nth_error (assignments (setCols u)) i
          = Some (column_name [("firstName", VStr "first_name")] k, i + 1)
          /\ nth_error (values u) i = Some v.
Proof.
  split; [discriminate|].
  apply (@sqlForPartialUpdate_placeholders
           [("firstName", VStr "Aliya"); ("age", VNum 32)]
           [("firstName", VStr "first_name")]);
    [discriminate | reflexivity].
Defined.

(** C1 at [sqlForPartialUpdate] on a payload whose one key holds a double
    quote, which the PATCH route of jobs lets through.  The quote closes
    the identifier and the rest of the key is read as SQL: the [setCols]
    text returned reads back as the two parameters 9 and 1, against the
    one value returned, and the UPDATE statement [Job.update] sends with
    it reads back as 9, 1, 2 against two bound values. *)
Theorem sqlForPartialUpdate_key_with_quote_adds_placeholder :
  let key := "a" ++ dq ++ "=$9, " ++ dq ++ "b" in
  let text := dq ++ "a" ++ dq ++ "=$9, " ++ dq ++ "b" ++ dq ++ "=$1" in
  sqlForPartialUpdate [(key, VNum 1)] Job.jsToSql
  = inr {| setCols := text; values := [VNum 1] |}
  /\ placeholders text = [9; 1]
  /\ length (placeholders text) <> length [VNum 1]
  /\ placeholders text <> seq 1 (length [VNum 1])
  /\ (forall (store : Type) execute (st : store),
        snd (fst (serve execute
                    (JobRoutes.patch (fun _ => [])
                       {| JobRoutes.params :=
                            JobRoutes.path_params JobRoutes.patch_pattern
                              "manager";
                          JobRoutes.query := AObject [];
                          JobRoutes.body := [(key, VNum 1)] |})
                    st))
        = [Call (Job.update_sql text "$2") [VNum 1; VStr "manager"]])
  /\ placeholders (Job.update_sql text "$2") = [9; 1; 2].
Proof.
  cbv zeta. split; [reflexivity|]. split; [reflexivity|].
  split; [vm_compute; discriminate|]. split; [vm_compute; discriminate|].
  split; [|reflexivity].
  intros store execute st. unfold serve, JobRoutes.patch.
  cbn [JobRoutes.body JobRoutes.params].
  change (JS.get (JobRoutes.path_params JobRoutes.patch_pattern "manager")
            "title")
    with (VStr "manager").
  change (Job.update (VStr "manager")
            [("a" ++ dq ++ "=$9, " ++ dq ++ "b", VNum 1)])
    with (Query
            (Job.update_sql
               (dq ++ "a" ++ dq ++ "=$9, " ++ dq ++ "b" ++ dq ++ "=$1") "$2")
            [VNum 1; VStr "manager"]
            (fun rows =>
               match first_row rows with
               | None =>
                   Throw (NotFoundError ("No company: " ++ "manager"))
               | Some job => Ret job
               end)).
  cbn [JobRoutes.try_catch run].
  destruct (execute st _ _) as [st' [rejected|[|r rows]]]; reflexivity.
Qed.

(** C8.  For every translation table, [sqlForPartialUpdate] on the empty
    field mapping throws [BadRequestError("No data")]; no [setCols] and no
    [values] come back. *)
Theorem sqlForPartialUpdate_no_data (jsToSql : JS.object) :
  sqlForPartialUpdate [] jsToSql = inl (BadRequestError "No data")
  /\ forall u, sqlForPartialUpdate [] jsToSql <> inr u.
Proof.
  split; [reflexivity | discriminate].
Qed.

(** ** Listing: the recognized keys *)

Lemma keys_of_object (o : JS.object) : keys_of (AObject o) = inr (JS.keys o).
Proof. reflexivity. Qed.

Lemma invalid_keys_nonempty (valid keys : list string) (k : string) :
  In k keys -> JS.str_mem k valid = false ->
  Nat.eqb (length (filter (fun k => negb (JS.str_mem k valid)) keys)) 0 = false.
Proof.
  intros Hin Hk.
  assert (H : In k (filter (fun k => negb (JS.str_mem k valid)) keys)).
  { apply filter_In. split; [assumption | now rewrite Hk]. }
  destruct (filter _ keys); [contradiction | reflexivity].
Qed.

Lemma invalid_key_named (valid keys : list string) (k before after : string) :
  In k keys -> JS.str_mem k valid = false ->
  occurs_in k
    (before
       ++ String.concat "," (filter (fun k => negb (JS.str_mem k valid)) keys)
       ++ after).
Proof.
  intros Hin Hk. apply occurs_in_context, occurs_in_concat, filter_In.
  split; [assumption | now rewrite Hk].
Qed.

(** C4.  For every filter mapping with at least one key outside the
    entity's [validParams], [findAll] throws a [BadRequestError] without
    having called [db.query], and every key outside [validParams] occurs in
    the message.  The same holds of [findAll] in src/models/job.js. *)
Theorem findAll_rejects_unrecognized_keys
  (e : entity) (query : JS.object) (k0 : string) :
  In k0 (JS.keys query) ->
  JS.str_mem k0 (recognized e) = false ->
  exists message,
    findAll e (AObject query) = Throw (BadRequestError message)
    /\ (e = Position ->
        ModelsJob.findAll (AObject query) = Throw (BadRequestError message))
    /\ (forall (store : Type) execute (st : store),
          run execute (findAll e (AObject query)) st
          = (st, [], inl (BadRequestError message)))
    /\ forall k,
        In k (JS.keys query) -> JS.str_mem k (recognized e) = false ->
        occurs_in k message.
Proof.
  intros Hin Hk.
  pose proof (invalid_keys_nonempty (recognized e) (JS.keys query) k0 Hin Hk)
    as Hlen.
  destruct e; cbn [recognized findAll] in *.
  - exists (Job.invalid_message
              (filter (fun k => negb (JS.str_mem k Job.validParams))
                 (JS.keys query))).
    assert (E : Job.findAll (AObject query)
                = Throw (BadRequestError
                           (Job.invalid_message
                              (filter (fun k => negb (JS.str_mem k Job.validParams))
                                 (JS.keys query))))).
    { unfold Job.findAll, Job.checkForBadQueries.
      cbn [JS.default_to]. rewrite keys_of_object. cbn [lift bind].
      rewrite Hlen. reflexivity. }
    split; [exact E|]. split; [|split].
    + intros _. unfold ModelsJob.findAll, ModelsJob.checkForBadQueries.
      cbn [JS.default_to]. rewrite keys_of_object. cbn [lift bind].
      change ModelsJob.validParams with Job.validParams.
      rewrite Hlen. reflexivity.
    + intros store execute st. rewrite E. reflexivity.
    + intros k Hk1 Hk2. unfold Job.invalid_message.
      now apply invalid_key_named.
  - exists (Company.invalid_message
              (filter (fun k => negb (JS.str_mem k Company.validParams))
                 (JS.keys query))).
    assert (E : Company.findAll (AObject query)
                = Throw (BadRequestError
                           (Company.invalid_message
                              (filter
                                 (fun k => negb (JS.str_mem k Company.validParams))
                                 (JS.keys query))))).
    { unfold Company.findAll.
      cbn [JS.default_to]. rewrite keys_of_object. cbn [lift bind].
      rewrite Hlen. reflexivity. }
    split; [exact E|]. split; [|split].
    + discriminate.
    + intros store execute st. rewrite E. reflexivity.
    + intros k Hk1 Hk2. unfold Company.invalid_message.
      now apply invalid_key_named.
Qed.

Lemma findAll_rejects_unrecognized_keys_witness :
  exists message,
    findAll Position
      (AObject [("title", VStr "c"); ("minSalary", VNum 1);
                ("potato", VStr "soup")])
    = Throw (BadRequestError message)
    /\ occurs_in "potato" message.
Proof.
  destruct (@findAll_rejects_unrecognized_keys Position
              [("title", VStr "c"); ("minSalary", VNum 1);
               ("potato", VStr "soup")] "potato")
    as (message & E & _ & _ & Hnamed).
  - simpl. tauto.
  - reflexivity.
  - exists message. split; [exact E|].
    apply Hnamed; [simpl; tauto | reflexivity].
Defined.

(** ** Listing with no filter *)

(** With the empty mapping, [Job.findAll] builds the empty [whereClause]
    and its statement has no WHERE keyword. *)
Lemma Job_findAll_empty_filter :
  Job.where_clause (AObject []) [] = ""
  /\ Job.findAll (AObject []) = db_query (Job.select_sql "") []
  /\ Job.findAll (AValue VUndefined) = db_query (Job.select_sql "") []
  /\ contains "WHERE" (Job.select_sql "") = false.
Proof. repeat split; reflexivity. Qed.

(** C2 at [Company.findAll({})].  The empty object is truthy, so the branch
    with the WHERE keyword runs: the clause after the keyword is the empty
    string, and the statement reads WHERE, a line break, ORDER BY name. *)
Theorem Company_findAll_empty_filter_keeps_where :
  Company.findAll (AObject []) = db_query (Company.filtered_sql "") []
  /\ contains "WHERE" (Company.filtered_sql "") = true
  /\ exists before,
      Company.filtered_sql "" = before ++ "WHERE " ++ "" ++ "
         ORDER BY name".
Proof.
  split; [reflexivity|]. split; [reflexivity|].
  exists (substring 0 (String.length (Company.filtered_sql "") - 29)
            (Company.filtered_sql "")).
  reflexivity.
Qed.

(** C10 at [Company.findAll()].  The parameter defaults to [null], on
    which [Object.keys] throws a [TypeError]: no statement reaches the
    database, and the branch for the full listing is not taken. *)
Theorem Company_findAll_no_argument_throws :
  JS.object_keys (JS.default_to (AValue VNull) (AValue VUndefined)) = None
  /\ Company.findAll (AValue VUndefined)
     = Throw (TypeError "Cannot convert undefined or null to object")
  /\ forall (store : Type) execute (st : store),
      run execute (Company.findAll (AValue VUndefined)) st
      = (st, [], inl (TypeError "Cannot convert undefined or null to object")).
Proof. repeat split; reflexivity. Qed.

(** The full listing is what [Company.findAll] runs on a falsy primitive
    that has keys, such as [0], [false] or the empty string. *)
Lemma Company_findAll_full_listing (v : value) :
  JS.truthy v = false -> v <> VUndefined -> v <> VNull ->
  Company.findAll (AValue v) = db_query Company.all_sql [].
Proof.
  intros Hf Hu Hn. destruct v as [| |b|z Hz|s]; try contradiction.
  - destruct b; [discriminate | reflexivity].
  - unfold Company.findAll. cbn [JS.default_to keys_of JS.object_keys lift bind
      filter length Nat.eqb negb JS.arg_truthy].
    now rewrite Hf.
  - simpl in Hf. apply negb_false_iff, String.eqb_eq in Hf. subst s.
    reflexivity.
Qed.

(** ** Listing positions by equity *)

(** C3 at [Job.findAll({hasEquity: "true", title: "c"})].  The statement
    compares equity with parameter 1 and the title with parameter 2; the
    array bound to it holds the wrapped title first and the literal 0
    second, so each placeholder receives the value of the other key. *)
Theorem Job_findAll_hasEquity_first_misbinds :
  let query := AObject [("hasEquity", VStr "true"); ("title", VStr "c")] in
  Job.findAll query
  = db_query (Job.select_sql "WHERE equity > $1 AND  title ILIKE $2")
      [VStr "%c%"; VStr "0"]
  /\ Job.makeKeyStatementsForWhereClauses query "hasEquity" 0
     = Some "equity > $1"
  /\ nth_error (Job.bound_values (Job.query_after query)) 0 = Some (VStr "%c%")
  /\ nth_error (Job.bound_values (Job.query_after query)) 1 = Some (VStr "0").
Proof. repeat split; reflexivity. Qed.

(** A truthy value of [hasEquity] other than [true] and ["true"] stays in
    the array next to the literal 0: two values for one placeholder. *)
Lemma Job_findAll_hasEquity_other_truthy :
  Job.findAll (AObject [("hasEquity", VNum 1)])
  = db_query (Job.select_sql "WHERE equity > $1") [VNum 1; VStr "0"].
Proof. reflexivity. Qed.

(** In src/models/job.js the comparison is an equality whatever the value,
    and the value itself is bound. *)
Lemma ModelsJob_findAll_hasEquity :
  ModelsJob.findAll (AObject [("hasEquity", VBool true)])
  = db_query (Job.select_sql "WHERE equity = $1") [VBool true].
Proof. reflexivity. Qed.

(** With [hasEquity] as the only key and a boolean for its value, the
    comparison follows the value and the literal 0 is bound to its
    placeholder. *)
Lemma Job_findAll_hasEquity_alone (b : bool) :
  Job.findAll (AObject [("hasEquity", VBool b)])
  = db_query
      (Job.select_sql ("WHERE equity " ++ (if b then ">" else "=") ++ " $1"))
      [VStr "0"].
Proof. destruct b; reflexivity. Qed.

(** ** Objects *)

Lemma keys_set (o : JS.object) (k : string) (v : value) :
  JS.truthy (JS.get o k) = true -> JS.keys (JS.set o k v) = JS.keys o.
Proof.
  induction o as [|[k' x] o IH]; intros H; [discriminate|].
  cbn [JS.get JS.set] in *.
  destruct (String.eqb k' k); [reflexivity|].
  cbn [JS.keys map fst]. f_equal. now apply IH.
Qed.

Lemma get_set_other (o : JS.object) (k k' : string) (v : value) :
  k <> k' -> JS.get (JS.set o k v) k' = JS.get o k'.
Proof.
  intros Hne. induction o as [|[k0 x] o IH]; cbn [JS.get JS.set].
  - destruct (String.eqb_spec k k'); [contradiction | reflexivity].
  - destruct (String.eqb_spec k0 k) as [->|Hk]; cbn [JS.get].
    + destruct (String.eqb_spec k k'); [contradiction | reflexivity].
    + now rewrite IH.
Qed.

Lemma in_values_set (o : JS.object) (k : string) (v : value) :
  JS.truthy (JS.get o k) = true -> In v (JS.values (JS.set o k v)).
Proof.
  induction o as [|[k' x] o IH]; intros H; [discriminate|].
  cbn [JS.get JS.set] in *.
  destruct (String.eqb k' k); [now left|].
  right. now apply IH.
Qed.

Lemma values_set_inv (o : JS.object) (k : string) (v x : value) :
  In x (JS.values (JS.set o k v)) -> In x (JS.values o) \/ x = v.
Proof.
  induction o as [|[k' y] o IH]; cbn [JS.set JS.values map snd In].
  - intros [<-|[]]. now right.
  - destruct (String.eqb k' k); cbn [map snd In].
    + intros [<-|H]; [now right | left; now right].
    + intros [<-|H]; [left; now left|].
      destruct (IH H) as [H'|H']; [left; now right | now right].
Qed.

Lemma nth_error_values_set (o : JS.object) (k : string) (v : value) :
  forall i,
    NoDup (JS.keys o) -> nth_error (JS.keys o) i = Some k ->
    nth_error (JS.values (JS.set o k v)) i = Some v.
Proof.
  induction o as [|[k' x] o IH]; intros i Hnd Hi.
  - destruct i; discriminate.
  - cbn [JS.keys map fst] in Hnd, Hi. inversion Hnd as [|? ? Hnotin Hnd']; subst.
    destruct i as [|i]; cbn [nth_error] in Hi.
    + injection Hi as ->. cbn [JS.set]. now rewrite String.eqb_refl.
    + cbn [JS.set].
      destruct (String.eqb_spec k' k) as [->|Hne].
      * exfalso. apply Hnotin. eapply nth_error_In. exact Hi.
      * cbn [JS.values map snd nth_error]. now apply IH.
Qed.

Lemma mapi_from_ext {A B : Type} (f g : A -> nat -> B) (l : list A) :
  (forall x i, f x i = g x i) ->
  forall i, JS.mapi_from f i l = JS.mapi_from g i l.
Proof.
  intros H. induction l as [|x l IH]; intros i; cbn [JS.mapi_from].
  - reflexivity.
  - now rewrite H, IH.
Qed.

Lemma filter_keeps_all {A : Type} (f : A -> bool) (l : list A) :
  (forall x, In x l -> f x = true) -> filter f l = l.
Proof.
  induction l as [|x l IH]; intros H; cbn [filter]; [reflexivity|].
  rewrite (H x (or_introl eq_refl)). f_equal.
  apply IH. intros y Hy. apply H. now right.
Qed.

Lemma recognized_keys_pass (valid keys : list string) :
  forallb (fun k => JS.str_mem k valid) keys = true ->
  filter (fun k => negb (JS.str_mem k valid)) keys = [].
Proof.
  induction keys as [|k keys IH]; intros H; [reflexivity|].
  cbn [forallb] in H. apply andb_true_iff in H as [Hk H].
  cbn [filter]. rewrite Hk. now apply IH.
Qed.

Lemma wrapped_is_no_flag (s : string) :
  JS.val_mem (VStr ("%" ++ s ++ "%")) Job.flags = false.
Proof. reflexivity. Qed.

Lemma get_app_absent (o o' : JS.object) (k : string) :
  ~ In k (JS.keys o) -> JS.get (o ++ o')%list k = JS.get o' k.
Proof.
  induction o as [|[k' x] o IH]; intros Hk; [reflexivity|].
  cbn [JS.keys map fst In] in Hk. simpl.
  destruct (String.eqb_spec k' k) as [->|_]; [tauto|].
  apply IH. tauto.
Qed.

(** With [hasEquity] as the last key, one of the four values the filter
    drops under it, and none of them under another key, the array has one
    value per key and the literal 0 stands at the index of [hasEquity]. *)
Lemma Job_bound_values_hasEquity_last (rest : JS.object) (v : value) :
  ~ In "hasEquity" (JS.keys rest) ->
  (forall x, In x (JS.values rest) -> JS.val_mem x Job.flags = false) ->
  JS.val_mem v Job.flags = true ->
  Job.bound_values (AObject (rest ++ [("hasEquity", v)])%list)
  = (JS.values rest ++ [VStr "0"])%list.
Proof.
  intros Hk Hrest Hv. unfold Job.bound_values.
  cbn [JS.object_values JS.prop]. rewrite get_app_absent by assumption.
  cbn [JS.get]. rewrite String.eqb_refl.
  unfold JS.values. rewrite map_app, filter_app. cbn [map snd filter].
  rewrite Hv. cbn [negb].
  rewrite filter_keeps_all by (intros y Hy; now rewrite (Hrest y Hy)).
  rewrite app_nil_r.
  destruct v as [| |b|z Hz|s]; try discriminate; reflexivity.
Qed.

(** ** Listing with recognized keys only *)

Lemma Job_findAll_recognized (query : JS.object) :
  forallb (fun k => JS.str_mem k Job.validParams) (JS.keys query) = true ->
  Job.findAll (AObject query)
  = db_query (Job.select_sql (Job.where_clause (AObject query) (JS.keys query)))
      (Job.bound_values (Job.query_after (AObject query))).
Proof.
  intros H. unfold Job.findAll, Job.checkForBadQueries.
  cbn [JS.default_to]. rewrite keys_of_object. cbn [lift bind].
  now rewrite (recognized_keys_pass _ _ H).
Qed.

Lemma Company_findAll_recognized (query : JS.object) :
  forallb (fun k => JS.str_mem k Company.validParams) (JS.keys query) = true ->
  Company.findAll (AObject query)
  = db_query
      (Company.filtered_sql
         (JS.join " AND "
            (JS.mapi Company.makeKeyStatementsForWhereClauses (JS.keys query))))
      (JS.object_values (JS.wrap_if_truthy (AObject query) "name")).
Proof.
  intros H. unfold Company.findAll.
  cbn [JS.default_to]. rewrite keys_of_object. cbn [lift bind].
  now rewrite (recognized_keys_pass _ _ H).
Qed.

Lemma Job_where_clause_set_title (query : JS.object) (v : value) :
  JS.truthy (JS.get query "title") = true ->
  Job.where_clause (AObject (JS.set query "title" v))
    (JS.keys (JS.set query "title" v))
  = Job.where_clause (AObject query) (JS.keys query).
Proof.
  intros H. rewrite (keys_set query "title" v H).
  unfold Job.where_clause, JS.mapi.
  rewrite (mapi_from_ext
             (fun key idx =>
                Job.makeKeyStatementsForWhereClauses
                  (AObject (JS.set query "title" v)) key idx)
             (fun key idx =>
                Job.makeKeyStatementsForWhereClauses (AObject query) key idx)).
  - reflexivity.
  - intros key idx. unfold Job.makeKeyStatementsForWhereClauses.
    cbn [JS.prop]. now rewrite get_set_other by discriminate.
Qed.

Lemma set_inv (o : JS.object) (k : string) (v : value) :
  forall k' x,
    NoDup (JS.keys o) ->
    In (k', x) (JS.set o k v) ->
    (k' = k /\ x = v) \/ (k' <> k /\ In (k', x) o).
Proof.
  induction o as [|[k0 y] o IH]; intros k' x Hnd Hin.
  - cbn [JS.set In] in Hin. destruct Hin as [E|[]].
    injection E as <- <-. now left.
  - cbn [JS.keys map fst] in Hnd. inversion Hnd as [|? ? Hnotin Hnd']; subst.
    cbn [JS.set] in Hin.
    destruct (String.eqb_spec k0 k) as [->|Hne]; cbn [In] in Hin.
    + destruct Hin as [E|Hin]; [injection E as <- <-; now left|].
      right. split; [|now right].
      intros ->. apply Hnotin. now apply (in_map fst) in Hin.
    + destruct Hin as [E|Hin].
      * injection E as <- <-. right. split; [assumption | now left].
      * destruct (IH k' x Hnd' Hin) as [H|[H1 H2]]; [now left|].
        right. split; [assumption | now right].
Qed.

Lemma Job_bound_values_in (o : JS.object) (x : value) :
  In x (JS.values o) -> JS.val_mem x Job.flags = false ->
  In x (Job.bound_values (AObject o)).
Proof.
  intros Hin Hx. unfold Job.bound_values. cbn [JS.object_values].
  assert (H : In x (filter (fun v => negb (JS.val_mem v Job.flags)) (JS.values o))).
  { apply filter_In. split; [assumption | now rewrite Hx]. }
  destruct (negb _); [apply in_or_app; now left | assumption].
Qed.

Lemma Job_bound_values_nth (o : JS.object) (i : nat) (x : value) :
  (forall y, In y (JS.values o) -> JS.val_mem y Job.flags = false) ->
  nth_error (JS.values o) i = Some x ->
  nth_error (Job.bound_values (AObject o)) i = Some x.
Proof.
  intros Hall Hi. unfold Job.bound_values. cbn [JS.object_values].
  rewrite filter_keeps_all
    by (intros y Hy; now rewrite (Hall y Hy)).
  destruct (negb _); [|assumption].
  rewrite nth_error_app1; [assumption|].
  apply nth_error_Some. now rewrite Hi.
Qed.

(** ** Listing by a pattern *)

(** C5, amended.  For every [findAll] call of [Job] or [Company] whose
    filter mapping has recognized keys only and a truthy value under the
    ILIKE key (title, name), the array bound to the statement holds that
    value between two percent signs, and the statement text is the same
    whatever value stands under the key.  With distinct keys, and for
    positions with no value of another key among [true], [false], ['true']
    and ['false'], the wrapped value stands at the index of its key. *)
Theorem findAll_wraps_truthy_pattern
  (e : entity) (query : JS.object) (v : value) :
  forallb (fun k => JS.str_mem k (recognized e)) (JS.keys query) = true ->
  JS.get query (display_key e) = v ->
  JS.truthy v = true ->
  exists text params,
    findAll e (AObject query) = db_query text params
    /\ In (VStr ("%" ++ JS.toString v ++ "%")) params
    /\ (forall v', exists params',
          findAll e (AObject (JS.set query (display_key e) v'))
          = db_query text params')
    /\ forall i,
        NoDup (JS.keys query) ->
        nth_error (JS.keys query) i = Some (display_key e) ->
        (e = Position ->
         forall k x, In (k, x) query -> k <> "title" ->
                     JS.val_mem x Job.flags = false) ->
        nth_error params i = Some (VStr ("%" ++ JS.toString v ++ "%")).
Proof.
  intros Hrec Hget Htrue.
  destruct e; cbn [recognized display_key findAll] in *.
  - (* Job *)
    assert (Hafter : Job.query_after (AObject query)
                     = AObject (JS.set query "title"
                                  (VStr ("%" ++ JS.toString v ++ "%")))).
    { unfold Job.query_after. cbn [JS.default_to JS.wrap_if_truthy].
      now rewrite Hget, Htrue. }
    exists (Job.select_sql (Job.where_clause (AObject query) (JS.keys query))).
    exists (Job.bound_values (Job.query_after (AObject query))).
    split; [now apply Job_findAll_recognized|].
    rewrite Hafter. split; [|split].
    + apply Job_bound_values_in; [|apply wrapped_is_no_flag].
      apply in_values_set. now rewrite Hget.
    + intros v'. eexists.
      rewrite Job_findAll_recognized
        by (rewrite keys_set by (now rewrite Hget); exact Hrec).
      rewrite Job_where_clause_set_title by (now rewrite Hget).
      reflexivity.
    + intros i Hnd Hi Hflags.
      apply Job_bound_values_nth; [|now apply nth_error_values_set].
      intros y Hy. apply in_map_iff in Hy as ([k x] & <- & Hin).
      destruct (set_inv query "title" _ k x Hnd Hin) as [[_ ->]|[Hk Hin']].
      * apply wrapped_is_no_flag.
      * now apply (Hflags eq_refl k x).
  - (* Company *)
    assert (Hafter : JS.wrap_if_truthy (AObject query) "name"
                     = AObject (JS.set query "name"
                                  (VStr ("%" ++ JS.toString v ++ "%")))).
    { cbn [JS.wrap_if_truthy]. now rewrite Hget, Htrue. }
    eexists. eexists.
    split; [now apply Company_findAll_recognized|].
    rewrite Hafter. cbn [JS.object_values]. split; [|split].
    + apply in_values_set. now rewrite Hget.
    + intros v'. eexists.
      rewrite Company_findAll_recognized
        by (rewrite keys_set by (now rewrite Hget); exact Hrec).
      rewrite keys_set by (now rewrite Hget).
      reflexivity.
    + intros i Hnd Hi _. now apply nth_error_values_set.
Qed.

Lemma findAll_wraps_truthy_pattern_witness :
  exists text params,
    findAll Organization
      (AObject [("name", VStr "net"); ("minEmployees", VNum 2)])
    = db_query text params
    /\ nth_error params 0 = Some (VStr "%net%").
Proof.
  destruct (@findAll_wraps_truthy_pattern Organization
              [("name", VStr "net"); ("minEmployees", VNum 2)] (VStr "net")
              eq_refl eq_refl eq_refl)
    as (text & params & E & _ & _ & Hnth).
  exists text, params. split; [exact E|].
  apply (Hnth 0).
  - repeat constructor; simpl; intuition discriminate.
  - reflexivity.
  - discriminate.
Defined.

(** C5 as written fails on a falsy pattern: the empty title is bound as it
    came, with no percent sign around it. *)
Lemma Job_findAll_empty_title_unwrapped :
  Job.findAll (AObject [("title", VStr "")])
  = db_query (Job.select_sql "WHERE  title ILIKE $1") [VStr ""]
  /\ ~ In (VStr ("%" ++ "" ++ "%")) [VStr ""].
Proof.
  split; [reflexivity|].
  intros [H|[]]. discriminate.
Qed.

(** [findAll] in src/models/job.js binds the title as it came, whatever
    it is. *)
Lemma ModelsJob_findAll_title_unwrapped (s : string) :
  ModelsJob.findAll (AObject [("title", VStr s)])
  = db_query (Job.select_sql "WHERE  title ILIKE $1") [VStr s].
Proof. reflexivity. Qed.

(** The wrapping is written into the caller's object: a second call with
    the same object wraps the pattern again. *)
Lemma Job_findAll_wraps_callers_object :
  Job.query_after (AObject [("title", VStr "c")])
  = AObject [("title", VStr "%c%")]
  /\ Job.findAll (Job.query_after (AObject [("title", VStr "c")]))
     = db_query (Job.select_sql "WHERE  title ILIKE $1") [VStr "%%c%%"].
Proof. split; reflexivity. Qed.

(** ** Updating a row *)

Lemma sqlForPartialUpdate_non_empty (data jsToSql : JS.object) :
  data <> [] ->
  exists u,
    sqlForPartialUpdate data jsToSql = inr u
    /\ values u = JS.values data.
Proof.
  intros Hne. destruct data as [|kv data]; [contradiction|].
  eexists. split; reflexivity.
Qed.

Lemma update_unfold (e : entity) (id : value) (data : JS.object)
  (u : partial_update) :
  sqlForPartialUpdate data (translation e) = inr u ->
  update e id data
  = Query
      (update_sql e (setCols u)
         ("$" ++ JS.string_of_nat (length (values u) + 1)))
      (values u ++ [id])
      (fun rows =>
         match first_row rows with
         | None => Throw (NotFoundError ("No company: " ++ JS.toString id))
         | Some r => Ret r
         end).
Proof.
  intros E. destruct e; cbn [update translation update_sql] in *;
    unfold Job.update, Company.update; rewrite E; reflexivity.
Qed.

(** C6.  For every identifier and every non-empty field mapping, [update]
    makes one call of [db.query]: the array bound to it is the values of
    [sqlForPartialUpdate] followed by the identifier, which is thereby the
    parameter at position [values.length + 1], the ordinal the statement
    compares the identifier column with.  When the database answers no
    row, [update] throws a [NotFoundError]; otherwise it returns the first
    row of the answer. *)
Theorem update_binds_identifier_last
  (store : Type)
  (execute : store -> string -> list value -> store * (error + list row))
  (e : entity) (id : value) (data : JS.object) (st : store) :
  data <> [] ->
  exists u,
    sqlForPartialUpdate data (translation e) = inr u
    /\ let handleVarIdx := "$" ++ JS.string_of_nat (length (values u) + 1) in
       let text := update_sql e (setCols u) handleVarIdx in
       let params := (values u ++ [id])%list in
       nth_error params (length (values u)) = Some id
       /\ length params = length (values u) + 1
       /\ occurs_in ("WHERE " ++ identifier_column e ++ " = " ++ handleVarIdx)
            text
       /\ match execute st text params with
          | (st', inr []) =>
              run execute (update e id data) st
              = (st', [Call text params],
                 inl (NotFoundError ("No company: " ++ JS.toString id)))
          | (st', inr (r :: _)) =>
              run execute (update e id data) st
              = (st', [Call text params], inr r)
          | (st', inl rejected) =>
              run execute (update e id data) st
              = (st', [Call text params], inl rejected)
          end.
Proof.
  intros Hne.
  destruct (sqlForPartialUpdate_non_empty (translation e) Hne) as (u & E & _).
  exists u. split; [exact E|]. cbv zeta.
  split; [|split; [|split]].
  - rewrite nth_error_app2 by lia. now rewrite Nat.sub_diag.
  - rewrite length_app. reflexivity.
  - destruct e; cbn [identifier_column update_sql];
      unfold Job.update_sql, Company.update_sql.
    + exists ("UPDATE jobs 
                      SET " ++ setCols u ++ " 
                      ").
      eexists. rewrite !append_assoc. cbn [append]. reflexivity.
    + exists ("UPDATE companies 
                      SET " ++ setCols u ++ " 
                      ").
      eexists. rewrite !append_assoc. cbn [append]. reflexivity.
  - rewrite (update_unfold e id data E). cbn [run].
    destruct (execute st _ _) as [st' [rejected|[|r rows]]]; reflexivity.
Qed.

Lemma update_binds_identifier_last_witness :
  exists u,
    sqlForPartialUpdate [("salary", VNum 90000)] (translation Position) = inr u
    /\ nth_error (values u ++ [VStr "manager"])%list (length (values u))
       = Some (VStr "manager")
    /\ run (fun (st : unit) (_ : string) (_ : list value) =>
              (st, @inr error (list row) []))
         (update Position (VStr "manager") [("salary", VNum 90000)]) tt
       = (tt,
          [Call (update_sql Position (setCols u)
                   ("$" ++ JS.string_of_nat (length (values u) + 1)))
             (values u ++ [VStr "manager"])],
          inl (NotFoundError "No company: manager")).
Proof.
  destruct (@update_binds_identifier_last unit
              (fun st _ _ => (st, @inr error (list row) []))
              Position (VStr "manager") [("salary", VNum 90000)] tt)
    as (u & E & Hnth & _ & _ & Hrun).
  - discriminate.
  - exists u. split; [exact E|]. split; [exact Hnth | exact Hrun].
Defined.

(** ** Creating a row *)

(** C7, amended.  [Company.create] first asks the database, with a
    SELECT on companies by the handle it was given, for a company of that
    handle.  If a row comes back it throws a [BadRequestError] and makes no
    other call; only when none comes back does it run the INSERT, whose
    RETURNING clause lists the public fields, and it returns the first row
    the INSERT answers.  [Job.create] makes no such check: the INSERT is
    its only call, and it returns the first row the INSERT answers. *)
Theorem create_checks_duplicate_handle_only
  (store : Type)
  (execute : store -> string -> list value -> store * (error + list row))
  (data : JS.object) (st : store) :
  let handle := JS.get data "handle" in
  let check := Call Company.duplicate_sql [handle] in
  let insert :=
    Call Company.insert_sql
      [handle; JS.get data "name"; JS.get data "description";
       JS.get data "numEmployees"; JS.get data "logoUrl"] in
  let insert_job :=
    Call Job.insert_sql
      [JS.get data "title"; JS.get data "salary"; JS.get data "equity";
       JS.get data "companyHandle"] in
  (occurs_in "SELECT handle" Company.duplicate_sql
   /\ occurs_in "FROM companies" Company.duplicate_sql
   /\ occurs_in "WHERE handle = $1" Company.duplicate_sql
   /\ placeholders Company.duplicate_sql = [1])
  /\ (occurs_in "INSERT INTO companies" Company.insert_sql
      /\ placeholders Company.insert_sql = [1; 2; 3; 4; 5]
      /\ occurs_in
           ("RETURNING handle, name, description, num_employees AS " ++ dq
              ++ "numEmployees" ++ dq ++ ", logo_url AS " ++ dq ++ "logoUrl"
              ++ dq)
           Company.insert_sql)
  /\ match execute st (call_text check) (call_params check) with
     | (st1, inr (_ :: _)) =>
         run execute (Company.create data) st
         = (st1, [check],
            inl (BadRequestError ("Duplicate company: " ++ JS.toString handle)))
     | (st1, inr []) =>
         match execute st1 (call_text insert) (call_params insert) with
         | (st2, inr rows) =>
             run execute (Company.create data) st
             = (st2, [check; insert], inr (first_row rows))
         | (st2, inl rejected) =>
             run execute (Company.create data) st
             = (st2, [check; insert], inl rejected)
         end
     | (st1, inl rejected) =>
         run execute (Company.create data) st = (st1, [check], inl rejected)
     end
  /\ (occurs_in "INSERT INTO jobs" Job.insert_sql
      /\ placeholders Job.insert_sql = [1; 2; 3; 4])
  /\ match execute st (call_text insert_job) (call_params insert_job) with
     | (st1, inr rows) =>
         run execute (Job.create data) st
         = (st1, [insert_job], inr (first_row rows))
     | (st1, inl rejected) =>
         run execute (Job.create data) st = (st1, [insert_job], inl rejected)
     end.
Proof.
  cbv zeta. split; [|split; [|split; [|split]]].
  - repeat split.
    + exists "", "
           FROM companies
           WHERE handle = $1". reflexivity.
    + exists "SELECT handle
           ", "
           WHERE handle = $1". reflexivity.
    + exists "SELECT handle
           FROM companies
           ", "". reflexivity.
  - repeat split.
    + exists "", (substring 21 (String.length Company.insert_sql - 21)
                    Company.insert_sql). reflexivity.
    + exists "INSERT INTO companies
           (handle, name, description, num_employees, logo_url)
           VALUES ($1, $2, $3, $4, $5)
           ", "".
      reflexivity.
  - cbn [call_text call_params].
    unfold Company.create, db_query. cbn [bind run].
    destruct (execute st _ _) as [st1 [rejected|[|r rows]]];
      [reflexivity | | reflexivity].
    cbn [first_row hd_error bind run].
    destruct (execute st1 _ _) as [st2 [rejected|rows]]; reflexivity.
  - split; [|reflexivity].
    exists "", (substring 16 (String.length Job.insert_sql - 16) Job.insert_sql).
    reflexivity.
  - cbn [call_text call_params].
    unfold Job.create, db_query. cbn [bind run].
    destruct (execute st _ _) as [st1 [rejected|rows]]; reflexivity.
Qed.

(** C7 as written fails on jobs.  In a table that already has a job of
    title cook, [Job.create] of another job of that title sends the INSERT
    alone, returns the new job and leaves the table with two jobs of the
    title; no [BadRequestError] is thrown. *)
Lemma Job_create_duplicate_title_inserts :
  let data := [("title", VStr "cook"); ("salary", VNum 1);
               ("equity", VNull); ("companyHandle", VStr "c3")] in
  let job := [("title", VStr "cook"); ("salary", VNum 1);
              ("equity", VNull); ("companyhandle", VStr "c3")] in
  result_of jobs_table (Job.get (VStr "cook")) sample_jobs
  = inr [("title", VStr "cook"); ("salary", VNum 90000);
         ("equity", VStr "0.0"); ("companyhandle", VStr "c2")]
  /\ run jobs_table (Job.create data) sample_jobs
     = ((sample_jobs ++ [job])%list,
        [Call Job.insert_sql
           [VStr "cook"; VNum 1; VNull; VStr "c3"]],
        inr (Some job))
  /\ length
       (filter (fun r => JS.strict_eq (JS.get r "title") (VStr "cook"))
          (fst (fst (run jobs_table (Job.create data) sample_jobs))))
     = 2.
Proof. cbv zeta. repeat split; reflexivity. Qed.

(** [Job.create] makes the INSERT its only call. *)
Lemma Job_create_inserts_directly
  (store : Type)
  (execute : store -> string -> list value -> store * (error + list row))
  (data : JS.object) (st : store) :
  calls_of execute (Job.create data) st
  = [Call Job.insert_sql
       [JS.get data "title"; JS.get data "salary"; JS.get data "equity";
        JS.get data "companyHandle"]].
Proof.
  unfold calls_of, Job.create, db_query. cbn [bind run].
  destruct (execute st _ _) as [st1 [rejected|rows]]; reflexivity.
Qed.

(** ** The order of a listing *)

Lemma Job_select_sql_ordered (whereClause : string) :
  ordered_by "title" (Job.select_sql whereClause).
Proof.
  exists ("SELECT title, salary, equity, company_handle AS companyHandle
       FROM jobs
       " ++ whereClause ++ "
       ").
  unfold Job.select_sql. rewrite !append_assoc. reflexivity.
Qed.

Lemma Company_all_sql_ordered : ordered_by "name" Company.all_sql.
Proof.
  exists (substring 0 (String.length Company.all_sql - 13) Company.all_sql).
  reflexivity.
Qed.

Lemma Company_filtered_sql_ordered (queryKeys : string) :
  ordered_by "name" (Company.filtered_sql queryKeys).
Proof.
  exists ("SELECT handle,
                name,
                description,
                num_employees AS " ++ dq ++ "numEmployees" ++ dq ++ ",
                logo_url AS " ++ dq ++ "logoUrl" ++ dq ++ "
         FROM companies
         WHERE " ++ queryKeys ++ "
         ").
  unfold Company.filtered_sql. rewrite !append_assoc. reflexivity.
Qed.

Lemma Job_findAll_listing (query : argument) :
  ordered_listing "title" (Job.findAll query).
Proof.
  unfold Job.findAll.
  destruct (keys_of (JS.default_to (AObject []) query)) as [err|keys];
    cbn [lift bind]; [left; now exists err|].
  destruct (Job.checkForBadQueries keys) as [err|[]];
    cbn [lift bind]; [left; now exists err|].
  right. eexists. eexists. split; [reflexivity|].
  apply Job_select_sql_ordered.
Qed.

Lemma ModelsJob_findAll_listing (query : argument) :
  ordered_listing "title" (ModelsJob.findAll query).
Proof.
  unfold ModelsJob.findAll.
  destruct (keys_of (JS.default_to (AObject []) query)) as [err|keys];
    cbn [lift bind]; [left; now exists err|].
  destruct (ModelsJob.checkForBadQueries _ keys) as [err|[]];
    cbn [lift bind]; [left; now exists err|].
  right. eexists. eexists. split; [reflexivity|].
  apply Job_select_sql_ordered.
Qed.

Lemma Company_findAll_listing (query : argument) :
  ordered_listing "name" (Company.findAll query).
Proof.
  unfold Company.findAll.
  destruct (keys_of (JS.default_to (AValue VNull) query)) as [err|keys];
    cbn [lift bind]; [left; now exists err|].
  destruct (negb (Nat.eqb _ 0)); [left; eexists; reflexivity|].
  destruct (negb (JS.arg_truthy _)); right; eexists; eexists;
    (split; [reflexivity|]).
  - apply Company_all_sql_ordered.
  - apply Company_filtered_sql_ordered.
Qed.

Lemma findAll_listing (e : entity) (query : argument) :
  ordered_listing (display_key e) (findAll e query).
Proof.
  destruct e; [apply Job_findAll_listing | apply Company_findAll_listing].
Qed.

Section Ordered.

Variable store : Type.
Variable execute : store -> string -> list value -> store * (error + list row).

Lemma ordered_listing_calls (col : string) (m : db (list row)) (st : store) :
  ordered_listing col m ->
  forall c, In c (calls_of execute m st) -> ordered_by col (call_text c).
Proof.
  intros [(err & ->)|(text & params & -> & Hord)] c; unfold calls_of;
    cbn [run db_query fst snd]; [contradiction|].
  destruct (execute st text params) as [st' [rejected|rows]];
    cbn [fst snd]; intros [<-|[]]; exact Hord.
Qed.

End Ordered.

(** ** The rows of a listing *)






Section Sorting.

Variable collation : value -> value -> bool.
Hypothesis collation_total :
  forall v w, collation v w = true \/ collation w v = true.
Variable col : string.






End Sorting.




(** The three jobs inserted as manager, cook, teacher are listed as cook,
    manager, teacher. *)
Lemma findAll_lists_inserted_jobs_by_title :
  result_of (select_rows (fun _ _ => Some (fun _ => true)) sample_collation)
    (findAll Position (AObject [])) inserted_jobs
  = inr sample_jobs.
Proof. reflexivity. Qed.

(** * Further properties *)

(** ** The lexer on whole statements *)

Lemma lex_plain (text : string) :
  forall col rest,
    plain text = true ->
    lex (Outside col) (text ++ rest) = lex (Outside col) rest.
Proof.
  induction text as [|c text IH]; intros col rest Hp; [reflexivity|].
  cbn [plain] in Hp.
  apply andb_true_iff in Hp as [Hc Hp]. apply andb_true_iff in Hc as [Hq Hd].
  apply negb_true_iff in Hq, Hd.
  cbn [append lex]. unfold outside_step. rewrite Hq, Hd.
  now apply IH.
Qed.

Lemma lex_after_digits (col : string) (n : nat) (c : ascii) (rest : string) :
  digit_of c = None -> plain (String c "") = true ->
  lex (Digits col n) (String c rest) = (col, n) :: lex (Outside col) rest.
Proof.
  intros Hd Hp. cbn [lex]. rewrite Hd.
  cbn [plain] in Hp.
  apply andb_true_iff in Hp as [Hc _]. apply andb_true_iff in Hc as [Hq Hs].
  apply negb_true_iff in Hq, Hs.
  unfold outside_step. now rewrite Hq, Hs.
Qed.

Lemma last_non_empty {A : Type} (x : A) (l : list A) (d d' : A) :
  last (x :: l) d = last (x :: l) d'.
Proof.
  revert x. induction l as [|y l IH]; intros x; [reflexivity|].
  change (last (y :: l) d = last (y :: l) d'). apply IH.
Qed.

Lemma lex_fragment_flat (col0 col : string) (k : nat) (rest : string) :
  quote_free col = true ->
  lex (Outside col0) (dq ++ col ++ dq ++ "=$" ++ JS.string_of_nat k ++ rest)
  = lex (Digits col k) rest.
Proof.
  intros Hq. rewrite <- (@lex_fragment col0 col k rest Hq).
  now rewrite !append_assoc.
Qed.

Lemma lex_set_clause_then (jsToSql : JS.object) (keys : list string) :
  forall col0 i c rest,
    keys <> [] ->
    forallb (fun k => quote_free (column_name jsToSql k)) keys = true ->
    digit_of c = None -> plain (String c "") = true ->
    lex (Outside col0)
      (String.concat ", "
         (JS.mapi_from (fun colName idx =>
                          dq ++ column_name jsToSql colName ++ dq ++ "=$"
                             ++ JS.string_of_nat (idx + 1)) i keys)
         ++ String c rest)
    = (combine (map (column_name jsToSql) keys) (seq (i + 1) (length keys))
         ++ lex (Outside (last (map (column_name jsToSql) keys) col0)) rest)%list.
Proof.
  induction keys as [|k keys IH]; intros col0 i c rest Hne Hq Hd Hp;
    [contradiction|].
  simpl in Hq. apply andb_true_iff in Hq as [Hk Hq].
  destruct keys as [|k' keys].
  - cbn [JS.mapi_from String.concat map length seq combine last app].
    rewrite lex_fragment by assumption.
    now rewrite lex_after_digits.
  - specialize (IH (column_name jsToSql k) (S i) c rest).
    set (F := fun (colName : string) (idx : nat) =>
                dq ++ column_name jsToSql colName ++ dq ++ "=$"
                   ++ JS.string_of_nat (idx + 1)) in *.
    change (String.concat ", " (JS.mapi_from F i (k :: k' :: keys)))
      with (F k i ++ ", "
              ++ String.concat ", " (JS.mapi_from F (S i) (k' :: keys))).
    unfold F at 1. rewrite !append_assoc.
    rewrite lex_fragment_flat by assumption.
    cbn [append].
    rewrite lex_after_digits by reflexivity.
    match goal with
    | |- context [lex (Outside ?c0) (String " " ?more)] =>
        change (lex (Outside c0) (String " " more)) with (lex (Outside c0) more)
    end.
    rewrite IH by (assumption || discriminate).
    change (last (map (column_name jsToSql) (k :: k' :: keys)) col0)
      with (last (map (column_name jsToSql) (k' :: keys)) col0).
    cbn [map] in *.
    rewrite (last_non_empty _ _ col0 (column_name jsToSql k)).
    cbn [length seq combine app].
    replace (S (i + 1)) with (S i + 1) by lia.
    reflexivity.
Qed.

(** ** helpers/sql.js and the UPDATE statement *)

(** X1.  The SET clause is written from the keys and the translation table
    alone: two payloads with the same keys are both refused, or both get
    the same text whatever their values, which come back untouched, in the
    order of the keys. *)
Theorem sqlForPartialUpdate_text_ignores_values
  (data1 data2 jsToSql : JS.object) :
  JS.keys data1 = JS.keys data2 ->
  match sqlForPartialUpdate data1 jsToSql,
        sqlForPartialUpdate data2 jsToSql with
  | inr u1, inr u2 =>
      setCols u1 = setCols u2
      /\ values u1 = JS.values data1
      /\ values u2 = JS.values data2
  | inl err1, inl err2 => err1 = err2
  | _, _ => False
  end.
Proof.
  unfold sqlForPartialUpdate. intros Hk. rewrite <- Hk.
  destruct (Nat.eqb (length (JS.keys data1)) 0); [reflexivity|].
  cbn [setCols values]. repeat split.
Qed.

Lemma sqlForPartialUpdate_text_ignores_values_witness :
  match sqlForPartialUpdate [("salary", VNum 1)] Job.jsToSql,
        sqlForPartialUpdate [("salary", VStr "1; DROP TABLE jobs")] Job.jsToSql
  with
  | inr u1, inr u2 =>
      setCols u1 = setCols u2
      /\ values u1 = JS.values [("salary", VNum 1)]
      /\ values u2 = JS.values [("salary", VStr "1; DROP TABLE jobs")]
  | inl err1, inl err2 => err1 = err2
  | _, _ => False
  end.
Proof.
  exact (@sqlForPartialUpdate_text_ignores_values
           [("salary", VNum 1)] [("salary", VStr "1; DROP TABLE jobs")]
           Job.jsToSql eq_refl).
Defined.

Lemma sqlForPartialUpdate_shape (kv : string * value) (data jsToSql : JS.object) :
  sqlForPartialUpdate (kv :: data) jsToSql
  = inr {| setCols :=
             String.concat ", "
               (JS.mapi_from
                  (fun colName idx =>
                     dq ++ column_name jsToSql colName ++ dq ++ "=$"
                        ++ JS.string_of_nat (idx + 1)) 0
                  (JS.keys (kv :: data)));
           values := JS.values (kv :: data) |}.
Proof. reflexivity. Qed.

Lemma Job_update_sql_lex (col0 : string) (clause : string) (n : nat) :
  forall c cols,
    (forall rest,
        lex (Outside col0) (clause ++ String " " rest)
        = (cols ++ lex (Outside c) rest)%list) ->
    lex (Outside col0)
      (Job.update_sql clause ("$" ++ JS.string_of_nat n))
    = (cols ++ [(c, n)])%list.
Proof.
  intros c cols H. unfold Job.update_sql.
  rewrite (lex_plain "UPDATE jobs 
                      SET ") by reflexivity.
  change (" 
                      WHERE title = " ++ ?x)
    with (String " " ("
                      WHERE title = " ++ x)).
  rewrite H. f_equal.
  rewrite (lex_plain "
                      WHERE title = ") by reflexivity.
  rewrite append_assoc.
  change (lex (Outside c) ("$" ++ ?x)) with (lex (Dollar c) x).
  rewrite lex_ordinal. reflexivity.
Qed.

Lemma Company_update_sql_lex (col0 : string) (clause : string) (n : nat) :
  forall c cols,
    (forall rest,
        lex (Outside col0) (clause ++ String " " rest)
        = (cols ++ lex (Outside c) rest)%list) ->
    lex (Outside col0)
      (Company.update_sql clause ("$" ++ JS.string_of_nat n))
    = (cols ++ [(c, n)])%list.
Proof.
  intros c cols H. unfold Company.update_sql.
  rewrite (lex_plain "UPDATE companies 
                      SET ") by reflexivity.
  change (" 
                      WHERE handle = " ++ ?x)
    with (String " " ("
                      WHERE handle = " ++ x)).
  rewrite H. f_equal.
  rewrite (lex_plain "
                      WHERE handle = ") by reflexivity.
  rewrite append_assoc.
  change (lex (Outside c) ("$" ++ ?x)) with (lex (Dollar c) x).
  rewrite lex_ordinal. reflexivity.
Qed.

(** X2.  For every identifier and every non-empty payload whose column
    names hold no double quote, the whole UPDATE statement of [update]
    reads back as the parameters 1, 2, ..., n + 1, as many as the values
    bound to it, and the last bound value is the identifier. *)
Theorem update_statement_placeholders
  (e : entity) (id : value) (data : JS.object) :
  data <> [] ->
  forallb (fun k => quote_free (column_name (translation e) k)) (JS.keys data)
  = true ->
  exists text params k,
    update e id data = Query text params k
    /\ placeholders text = seq 1 (length params)
    /\ length params = length data + 1
    /\ last params VUndefined = id.
Proof.
  intros Hne Hq. destruct data as [|kv data]; [contradiction|].
  pose proof (sqlForPartialUpdate_shape kv data (translation e)) as E.
  eexists. eexists. eexists.
  split; [exact (update_unfold e id (kv :: data) E)|].
  cbn [setCols values].
  assert (L : length (JS.values (kv :: data) ++ [id])%list
              = length (kv :: data) + 1).
  { now rewrite length_app, length_values. }
  split; [|split; [exact L | apply last_last]].
  rewrite L, length_values.
  assert (H : forall rest,
             lex (Outside "")
               (String.concat ", "
                  (JS.mapi_from
                     (fun colName idx =>
                        dq ++ column_name (translation e) colName ++ dq ++ "=$"
                           ++ JS.string_of_nat (idx + 1)) 0
                     (JS.keys (kv :: data)))
                  ++ String " " rest)
             = (combine (map (column_name (translation e)) (JS.keys (kv :: data)))
                  (seq 1 (length (JS.keys (kv :: data))))
                  ++ lex (Outside
                            (last (map (column_name (translation e))
                                     (JS.keys (kv :: data))) "")) rest)%list).
  { intros rest.
    now rewrite lex_set_clause_then by (assumption || discriminate || reflexivity). }
  unfold placeholders, assignments.
  destruct e; cbn [update_sql];
    [rewrite (@Job_update_sql_lex _ _ _ _ _ H)
    |rewrite (@Company_update_sql_lex _ _ _ _ _ H)];
    rewrite map_app, map_snd_columns, length_keys;
    cbn [map snd];
    replace (length (kv :: data) + 1) with (S (length (kv :: data))) by lia;
    now rewrite seq_S.
Qed.

Lemma update_statement_placeholders_witness :
  exists text params k,
    update Organization (VStr "c1")
      [("numEmployees", VNum 10); ("logoUrl", VNull)]
    = Query text params k
    /\ placeholders text = [1; 2; 3]
    /\ last params VUndefined = VStr "c1".
Proof.
  destruct (@update_statement_placeholders Organization (VStr "c1")
              [("numEmployees", VNum 10); ("logoUrl", VNull)])
    as (text & params & k & E & Hp & Hl & Hlast);
    [discriminate | reflexivity |].
  exists text, params, k. split; [exact E|].
  split; [|exact Hlast].
  rewrite Hp, Hl. reflexivity.
Defined.

(** ** The lexer on WHERE clauses *)

Lemma lex_plain_char (col : string) (c : ascii) (rest : string) :
  plain (String c "") = true ->
  lex (Outside col) (String c rest) = lex (Outside col) rest.
Proof.
  intros Hp. change (String c rest) with (String c "" ++ rest).
  now apply lex_plain.
Qed.

Lemma lex_condition (col F : string) (n : nat) (c : ascii) (rest : string) :
  plain F = true -> digit_of c = None -> plain (String c "") = true ->
  lex (Outside col) (F ++ "$" ++ JS.string_of_nat n ++ String c rest)
  = (col, n) :: lex (Outside col) rest.
Proof.
  intros HF Hd Hp. rewrite lex_plain by assumption.
  change (lex (Outside col) ("$" ++ ?x)) with (lex (Dollar col) x).
  rewrite lex_ordinal. now apply lex_after_digits.
Qed.

Lemma lex_where_clause (mk : string -> nat -> option string)
  (keys : list string) :
  (forall key idx,
      In key keys ->
      exists F, plain F = true
                /\ mk key idx = Some (F ++ "$" ++ JS.string_of_nat (idx + 1))) ->
  forall col i c rest,
    digit_of c = None -> plain (String c "") = true ->
    lex (Outside col)
      (JS.join " AND " (JS.mapi_from mk i keys) ++ String c rest)
    = (map (fun n => (col, n)) (seq (i + 1) (length keys))
         ++ lex (Outside col) rest)%list.
Proof.
  induction keys as [|k keys IH]; intros Hmk col i c rest Hd Hp.
  - cbn. now apply lex_plain_char.
  - destruct (Hmk k i (or_introl eq_refl)) as (F & HF & E).
    assert (Hmk' : forall key idx,
               In key keys ->
               exists F, plain F = true
                         /\ mk key idx
                            = Some (F ++ "$" ++ JS.string_of_nat (idx + 1))).
    { intros key idx Hin. apply Hmk. now right. }
    specialize (IH Hmk' col (S i) c rest Hd Hp).
    destruct keys as [|k' keys].
    + unfold JS.join. cbn [JS.mapi_from map String.concat length seq app].
      rewrite E, !append_assoc.
      now rewrite lex_condition.
    + change (JS.join " AND " (JS.mapi_from mk i (k :: k' :: keys)))
        with (match mk k i with Some s => s | None => "" end
                ++ " AND "
                ++ JS.join " AND " (JS.mapi_from mk (S i) (k' :: keys))).
      rewrite E, !append_assoc.
      change (" AND " ++ ?x) with (String " " ("AND " ++ x)).
      rewrite lex_condition by (assumption || reflexivity).
      rewrite lex_plain by reflexivity.
      rewrite IH.
      change (length (k :: k' :: keys)) with (S (length (k' :: keys))).
      cbn [seq map app].
      replace (S (i + 1)) with (S i + 1) by lia.
      reflexivity.
Qed.

Lemma str_mem_In (x : string) (l : list string) :
  JS.str_mem x l = true -> In x l.
Proof.
  induction l as [|y l IH]; cbn [JS.str_mem]; [discriminate|].
  intros H. apply orb_true_iff in H as [H|H].
  - left. now apply String.eqb_eq.
  - right. now apply IH.
Qed.

Lemma recognized_In (valid keys : list string) :
  forallb (fun k => JS.str_mem k valid) keys = true ->
  forall k, In k keys -> In k valid.
Proof.
  intros H k Hin. apply str_mem_In.
  now apply (proj1 (forallb_forall _ keys) H).
Qed.

Lemma Company_condition (key : string) (idx : nat) :
  In key Company.validParams ->
  exists F, plain F = true
            /\ Company.makeKeyStatementsForWhereClauses key idx
               = Some (F ++ "$" ++ JS.string_of_nat (idx + 1)).
Proof.
  intros [<-|[<-|[<-|[]]]].
  - exists " name ILIKE ". split; reflexivity.
  - exists "num_employees >= ". split; reflexivity.
  - exists "num_employees <= ". split; reflexivity.
Qed.

Lemma Job_condition (query : argument) (key : string) (idx : nat) :
  In key Job.validParams ->
  exists F, plain F = true
            /\ Job.makeKeyStatementsForWhereClauses query key idx
               = Some (F ++ "$" ++ JS.string_of_nat (idx + 1)).
Proof.
  intros [<-|[<-|[<-|[]]]].
  - exists " title ILIKE ". split; reflexivity.
  - exists "salary >= ". split; reflexivity.
  - unfold Job.makeKeyStatementsForWhereClauses.
    destruct (JS.strict_eq _ _ || negb _).
    + exists "equity = ". split; reflexivity.
    + exists "equity > ". split; reflexivity.
Qed.

Lemma map_snd_tagged {A B : Type} (a : A) (l : list B) :
  map snd (map (fun n => (a, n)) l) = l.
Proof.
  induction l as [|x l IH]; cbn [map snd]; [reflexivity | now rewrite IH].
Qed.

Lemma length_zero_empty (s : string) : String.length s = 0 -> s = "".
Proof. destruct s; [reflexivity | discriminate]. Qed.

Lemma Company_filtered_sql_placeholders (keys : list string) :
  forallb (fun k => JS.str_mem k Company.validParams) keys = true ->
  placeholders
    (Company.filtered_sql
       (JS.join " AND "
          (JS.mapi Company.makeKeyStatementsForWhereClauses keys)))
  = seq 1 (length keys).
Proof.
  intros Hrec. unfold placeholders, assignments, Company.filtered_sql, JS.mapi.
  match goal with
  | |- map snd (lex _ (_ ++ _ ++ _ ++ _ ++ _ ++ _ ++ _ ++ _ ++ _ ++ ?q ++ ?tail))
       = _ =>
      change (map snd (lex (Outside "logoUrl") (q ++ tail)) = seq 1 (length keys))
  end.
  change ("
         ORDER BY name") with (String (ascii_of_nat 10) "         ORDER BY name").
  rewrite (@lex_where_clause Company.makeKeyStatementsForWhereClauses keys)
    by (try reflexivity; intros key idx Hin;
        apply Company_condition, (recognized_In _ _ Hrec), Hin).
  change (lex (Outside "logoUrl") "         ORDER BY name")
    with (@nil (string * nat)).
  now rewrite app_nil_r, map_snd_tagged.
Qed.

Lemma Job_select_sql_placeholders (query : argument) (keys : list string) :
  forallb (fun k => JS.str_mem k Job.validParams) keys = true ->
  placeholders (Job.select_sql (Job.where_clause query keys))
  = seq 1 (length keys).
Proof.
  intros Hrec.
  assert (H : forall prefix,
             plain prefix = true ->
             map snd
               (lex (Outside "")
                  (prefix
                     ++ JS.join " AND "
                          (JS.mapi_from
                             (fun key idx =>
                                Job.makeKeyStatementsForWhereClauses query key idx)
                             0 keys)
                     ++ "
       ORDER BY title"))
             = seq 1 (length keys)).
  { intros prefix Hp. rewrite lex_plain by assumption.
    change ("
       ORDER BY title") with (String (ascii_of_nat 10) "       ORDER BY title").
    rewrite (@lex_where_clause
               (fun key idx => Job.makeKeyStatementsForWhereClauses query key idx)
               keys)
      by (try reflexivity; intros key idx Hin;
          apply Job_condition, (recognized_In _ _ Hrec), Hin).
    change (lex (Outside "") "       ORDER BY title")
      with (@nil (string * nat)).
    now rewrite app_nil_r, map_snd_tagged. }
  unfold placeholders, assignments, Job.select_sql, Job.where_clause, JS.mapi.
  destruct (Nat.eqb (String.length _) 0) eqn:E; cbn [negb].
  - apply Nat.eqb_eq, length_zero_empty in E.
    specialize (H "SELECT title, salary, equity, company_handle AS companyHandle
       FROM jobs
       " eq_refl).
    rewrite E in H. exact H.
  - rewrite <- (H "SELECT title, salary, equity, company_handle AS companyHandle
       FROM jobs
       WHERE " eq_refl).
    now rewrite !append_assoc.
Qed.

(** ** What [findAll] binds *)

Lemma get_In (o : JS.object) (k : string) (v : value) :
  NoDup (JS.keys o) -> In (k, v) o -> JS.get o k = v.
Proof.
  induction o as [|[k' x] o IH]; intros Hnd Hin; [contradiction|].
  cbn [JS.keys map fst] in Hnd. inversion Hnd as [|? ? Hnotin Hnd']; subst.
  cbn [JS.get]. destruct Hin as [E|Hin].
  - injection E as -> ->. now rewrite String.eqb_refl.
  - destruct (String.eqb_spec k' k) as [->|_]; [|now apply IH].
    exfalso. apply Hnotin. now apply (in_map fst) in Hin.
Qed.

Lemma truthy_get_In (o : JS.object) (k : string) :
  JS.truthy (JS.get o k) = true -> In k (JS.keys o).
Proof.
  induction o as [|[k' x] o IH]; cbn [JS.get JS.keys map fst In];
    [discriminate|].
  destruct (String.eqb_spec k' k) as [->|_]; [now left|].
  intros H. right. now apply IH.
Qed.

Lemma set_as_map (o : JS.object) (k : string) (w : value) :
  NoDup (JS.keys o) -> In k (JS.keys o) ->
  JS.set o k w
  = map (fun p => (fst p, if String.eqb (fst p) k then w else snd p)) o.
Proof.
  induction o as [|[k' x] o IH]; intros Hnd Hin; [contradiction|].
  cbn [JS.keys map fst] in Hnd, Hin. inversion Hnd as [|? ? Hnotin Hnd']; subst.
  cbn [JS.set map fst snd].
  destruct (String.eqb_spec k' k) as [->|Hne].
  - f_equal. rewrite <- (map_id o) at 1. apply map_ext_in.
    intros [k0 y] H0. cbn [fst snd].
    destruct (String.eqb_spec k0 k) as [->|_]; [|reflexivity].
    exfalso. apply Hnotin. now apply (in_map fst) in H0.
  - f_equal. apply IH; [assumption|].
    destruct Hin as [E|Hin]; [contradiction | assumption].
Qed.

Lemma wrap_if_truthy_as_map (o : JS.object) (key : string) :
  NoDup (JS.keys o) ->
  JS.wrap_if_truthy (AObject o) key
  = AObject (map (fun p => (fst p, bound_value key p)) o).
Proof.
  intros Hnd. cbn [JS.wrap_if_truthy].
  destruct (JS.truthy (JS.get o key)) eqn:Ht; f_equal.
  - rewrite set_as_map by (assumption || now apply truthy_get_In).
    apply map_ext_in. intros [k x] Hin. cbn [fst snd]. unfold bound_value.
    cbn [fst snd]. destruct (String.eqb_spec k key) as [->|_]; [|reflexivity].
    pose proof (@get_In o key x Hnd Hin) as G. rewrite G in *.
    now rewrite Ht.
  - rewrite <- (map_id o) at 1. apply map_ext_in.
    intros [k x] Hin. unfold bound_value. cbn [fst snd].
    destruct (String.eqb_spec k key) as [->|_]; [|reflexivity].
    pose proof (@get_In o key x Hnd Hin) as G. rewrite G in *.
    now rewrite Ht.
Qed.

Lemma values_bound (o : JS.object) (key : string) :
  JS.values (map (fun p => (fst p, bound_value key p)) o)
  = map (bound_value key) o.
Proof. unfold JS.values. now rewrite map_map. Qed.

Lemma keys_bound (o : JS.object) (key : string) :
  JS.keys (map (fun p => (fst p, bound_value key p)) o) = JS.keys o.
Proof. unfold JS.keys. now rewrite map_map. Qed.

Lemma get_bound_other (o : JS.object) (key k : string) :
  k <> key ->
  JS.get (map (fun p => (fst p, bound_value key p)) o) k = JS.get o k.
Proof.
  intros Hne. induction o as [|[k' x] o IH]; [reflexivity|].
  cbn [map fst JS.get]. destruct (String.eqb_spec k' k) as [->|_]; [|exact IH].
  unfold bound_value. cbn [fst snd].
  destruct (String.eqb_spec k key); [contradiction | reflexivity].
Qed.

(** X3.  For every filter object of [Company.findAll] with distinct,
    recognized keys, the statement reads back as the parameters 1, ..., n
    for n keys, and the array bound to it has one value per key, in the
    order of the keys: the value of the key, between percent signs under
    [name] when it is truthy. *)
Theorem Company_findAll_binds_value_per_key (query : JS.object) :
  forallb (fun k => JS.str_mem k Company.validParams) (JS.keys query) = true ->
  NoDup (JS.keys query) ->
  exists text,
    Company.findAll (AObject query)
    = db_query text (map (bound_value "name") query)
    /\ placeholders text = seq 1 (length query).
Proof.
  intros Hrec Hnd. eexists. split.
  - rewrite Company_findAll_recognized by assumption.
    rewrite wrap_if_truthy_as_map by assumption.
    cbn [JS.object_values]. rewrite values_bound. reflexivity.
  - rewrite Company_filtered_sql_placeholders by assumption.
    now rewrite length_keys.
Qed.

Lemma Company_findAll_binds_value_per_key_witness :
  exists text,
    Company.findAll
      (AObject [("minEmployees", VNum 2); ("name", VStr "net")])
    = db_query text [VNum 2; VStr "%net%"]
    /\ placeholders text = [1; 2].
Proof.
  apply (@Company_findAll_binds_value_per_key
           [("minEmployees", VNum 2); ("name", VStr "net")]).
  - reflexivity.
  - repeat constructor; simpl; intuition discriminate.
Defined.

(** X4.  For every filter object of [Job.findAll] with distinct,
    recognized keys, the statement reads back as the parameters 1, ..., n
    for n keys.  When [hasEquity] is not among them and no value to bind
    is one of [true], [false], ['true'], ['false'], the array bound has
    one value per key, in the order of the keys, the title between percent
    signs when it is truthy. *)
Theorem Job_findAll_binds_value_per_key (query : JS.object) :
  forallb (fun k => JS.str_mem k Job.validParams) (JS.keys query) = true ->
  NoDup (JS.keys query) ->
  exists text params,
    Job.findAll (AObject query) = db_query text params
    /\ placeholders text = seq 1 (length query)
    /\ (JS.get query "hasEquity" = VUndefined ->
        (forall p, In p query ->
                   JS.val_mem (bound_value "title" p) Job.flags = false) ->
        params = map (bound_value "title") query).
Proof.
  intros Hrec Hnd. eexists. eexists. split; [|split].
  - now apply Job_findAll_recognized.
  - rewrite Job_select_sql_placeholders by assumption.
    now rewrite length_keys.
  - intros Heq Hflags. unfold Job.query_after. cbn [JS.default_to].
    rewrite wrap_if_truthy_as_map by assumption.
    unfold Job.bound_values. cbn [JS.object_values JS.prop].
    rewrite get_bound_other, Heq by discriminate. cbn [JS.strict_eq JS.value_eqb negb].
    rewrite values_bound. apply filter_keeps_all.
    intros x Hx. apply in_map_iff in Hx as (p & <- & Hp).
    now rewrite (Hflags p Hp).
Qed.

Lemma Job_findAll_binds_value_per_key_witness :
  exists text,
    Job.findAll (AObject [("minSalary", VNum 50000); ("title", VStr "c")])
    = db_query text [VNum 50000; VStr "%c%"]
    /\ placeholders text = [1; 2].
Proof.
  destruct (@Job_findAll_binds_value_per_key
              [("minSalary", VNum 50000); ("title", VStr "c")])
    as (text & params & E & Hp & Hv).
  - reflexivity.
  - repeat constructor; simpl; intuition discriminate.
  - exists text. split; [|exact Hp].
    rewrite E. f_equal. apply Hv; [reflexivity|].
    intros p [<-|[<-|[]]]; reflexivity.
Defined.

Lemma mapi_from_app {A B : Type} (f : A -> nat -> B) (l l' : list A) :
  forall i,
    JS.mapi_from f i (l ++ l')%list
    = (JS.mapi_from f i l ++ JS.mapi_from f (i + length l) l')%list.
Proof.
  induction l as [|x l IH]; intros i; simpl.
  - now rewrite Nat.add_0_r.
  - rewrite IH. now replace (i + S (length l)) with (S i + length l) by lia.
Qed.

Lemma occurs_in_non_empty (k s : string) :
  occurs_in k s -> k <> "" -> Nat.eqb (String.length s) 0 = false.
Proof.
  intros (before & after & ->) Hk.
  destruct before as [|c before]; [|reflexivity].
  destruct k as [|c k]; [contradiction | reflexivity].
Qed.

Lemma keys_app (o o' : JS.object) :
  JS.keys (o ++ o')%list = (JS.keys o ++ JS.keys o')%list.
Proof. apply map_app. Qed.

Lemma flag_comparison (v : value) :
  JS.val_mem v Job.flags = true ->
  (if JS.strict_eq v (VStr "false") || negb (JS.truthy v) then "=" else ">")
  = (if JS.val_mem v [VBool true; VStr "true"] then ">" else "=").
Proof.
  destruct v as [| |[|]|z Hz|s]; try discriminate; try reflexivity.
  cbn [JS.val_mem JS.strict_eq JS.value_eqb Job.flags JS.truthy orb].
  destruct (String.eqb_spec "true" s) as [<-|_]; [reflexivity|].
  destruct (String.eqb_spec "false" s) as [<-|_]; [reflexivity | discriminate].
Qed.

(** X5.  For every filter object of [Job.findAll] with distinct,
    recognized keys whose last key is [hasEquity] with one of [true],
    [false], ['true'], ['false'] for its value -- no other value to bind
    being one of these -- the statement reads back as the parameters
    1, ..., n, the array bound has the values of the other keys in order
    and the literal 0 last, and the condition on equity, written with the
    last ordinal, is [>] for [true] and ['true'] and [=] for [false] and
    ['false']. *)
Theorem Job_findAll_hasEquity_last (rest : JS.object) (v : value) :
  forallb (fun k => JS.str_mem k Job.validParams) (JS.keys rest) = true ->
  NoDup (JS.keys (rest ++ [("hasEquity", v)])%list) ->
  JS.val_mem v Job.flags = true ->
  (forall p, In p rest -> JS.val_mem (bound_value "title" p) Job.flags = false) ->
  exists text,
    Job.findAll (AObject (rest ++ [("hasEquity", v)])%list)
    = db_query text (map (bound_value "title") rest ++ [VStr "0"])%list
    /\ placeholders text = seq 1 (length rest + 1)
    /\ occurs_in
         ("equity "
            ++ (if JS.val_mem v [VBool true; VStr "true"] then ">" else "=")
            ++ " $" ++ JS.string_of_nat (length rest + 1))
         text.
Proof.
  intros Hrec Hnd Hv Hflags.
  assert (Hrec' : forallb (fun k => JS.str_mem k Job.validParams)
                    (JS.keys (rest ++ [("hasEquity", v)])%list) = true).
  { rewrite keys_app, forallb_app, Hrec. reflexivity. }
  assert (Habsent : ~ In "hasEquity" (JS.keys rest)).
  { rewrite keys_app in Hnd. apply NoDup_remove_2 in Hnd.
    now rewrite app_nil_r in Hnd. }
  eexists. split; [|split].
  - rewrite Job_findAll_recognized by assumption. f_equal.
    unfold Job.query_after. cbn [JS.default_to].
    rewrite wrap_if_truthy_as_map by assumption.
    rewrite map_app. cbn [map fst].
    change (bound_value "title" ("hasEquity", v)) with v.
    rewrite Job_bound_values_hasEquity_last.
    + now rewrite values_bound.
    + now rewrite keys_bound.
    + rewrite values_bound. intros x Hx.
      apply in_map_iff in Hx as (p & <- & Hp). now apply Hflags.
    + assumption.
  - rewrite Job_select_sql_placeholders by assumption.
    now rewrite length_keys, length_app.
  - assert (Hin : In ("equity "
                        ++ (if JS.val_mem v [VBool true; VStr "true"]
                            then ">" else "=")
                        ++ " $" ++ JS.string_of_nat (length rest + 1))
                    (map (fun x => match x with Some s => s | None => "" end)
                       (JS.mapi_from
                          (fun key idx =>
                             Job.makeKeyStatementsForWhereClauses
                               (AObject (rest ++ [("hasEquity", v)])%list)
                               key idx)
                          0 (JS.keys (rest ++ [("hasEquity", v)])%list)))).
    { rewrite keys_app, mapi_from_app, map_app. apply in_or_app. right.
      cbn [JS.keys map fst JS.mapi_from]. left.
      unfold Job.makeKeyStatementsForWhereClauses. cbn [JS.prop].
      rewrite get_app_absent by assumption.
      cbn [JS.get]. rewrite String.eqb_refl.
      rewrite (flag_comparison v Hv), length_keys.
      reflexivity. }
    apply (occurs_in_concat " AND ") in Hin.
    unfold Job.select_sql, Job.where_clause, JS.join, JS.mapi.
    rewrite (occurs_in_non_empty Hin)
      by (destruct (JS.val_mem v _); discriminate).
    cbn [negb].
    apply occurs_in_context.
    pose proof (occurs_in_context "WHERE " "" Hin) as Hin'.
    now rewrite append_empty_r in Hin'.
Qed.

Lemma Job_findAll_hasEquity_last_witness :
  exists text,
    Job.findAll
      (AObject [("title", VStr "manager"); ("minSalary", VNum 50000);
                ("hasEquity", VBool true)])
    = db_query text [VStr "%manager%"; VNum 50000; VStr "0"]
    /\ placeholders text = [1; 2; 3]
    /\ occurs_in "equity > $3" text.
Proof.
  apply (@Job_findAll_hasEquity_last
           [("title", VStr "manager"); ("minSalary", VNum 50000)] (VBool true)).
  - reflexivity.
  - repeat constructor; simpl; intuition discriminate.
  - reflexivity.
  - intros p [<-|[<-|[]]]; reflexivity.
Defined.

(** ** Which listings reach the database *)

Lemma forallb_false {A : Type} (f : A -> bool) (l : list A) :
  forallb f l = false -> exists x, In x l /\ f x = false.
Proof.
  induction l as [|x l IH]; cbn [forallb]; [discriminate|].
  destruct (f x) eqn:E; cbn [andb].
  - intros H. destruct (IH H) as (y & Hy & Hf). exists y. split; [now right | exact Hf].
  - intros _. exists x. split; [now left | exact E].
Qed.

Lemma findAll_unrecognized (e : entity) (query : JS.object) (k : string) :
  In k (JS.keys query) -> JS.str_mem k (recognized e) = false ->
  exists message, findAll e (AObject query) = Throw (BadRequestError message).
Proof.
  intros Hin Hk.
  pose proof (invalid_keys_nonempty (recognized e) (JS.keys query) k Hin Hk)
    as Hlen.
  destruct e; cbn [recognized findAll] in *; eexists.
  - unfold Job.findAll, Job.checkForBadQueries.
    cbn [JS.default_to]. rewrite keys_of_object. cbn [lift bind].
    rewrite Hlen. reflexivity.
  - unfold Company.findAll.
    cbn [JS.default_to]. rewrite keys_of_object. cbn [lift bind].
    rewrite Hlen. reflexivity.
Qed.

Lemma findAll_recognized (e : entity) (query : JS.object) :
  forallb (fun k => JS.str_mem k (recognized e)) (JS.keys query) = true ->
  exists text params, findAll e (AObject query) = db_query text params.
Proof.
  intros H. destruct e; cbn [recognized findAll] in *; eexists; eexists.
  - now apply Job_findAll_recognized.
  - now apply Company_findAll_recognized.
Qed.

(** X6.  On a filter object, [findAll] of either model does one of two
    things: when every key is among [validParams] it sends one statement,
    and when some key is not it throws a [BadRequestError]; the values of
    the filter play no part in the choice. *)
Theorem findAll_sends_iff_recognized (e : entity) (query : JS.object) :
  if forallb (fun k => JS.str_mem k (recognized e)) (JS.keys query)
  then exists text params, findAll e (AObject query) = db_query text params
  else exists message,
      findAll e (AObject query) = Throw (BadRequestError message).
Proof.
  destruct (forallb _ (JS.keys query)) eqn:E.
  - now apply findAll_recognized.
  - apply forallb_false in E as (k & Hin & Hk).
    now apply (findAll_unrecognized e query k).
Qed.

(** X7.  The statement [findAll] sends is written from the keys of the
    filter, and for positions from the value of [hasEquity], alone: two
    filters with the same recognized keys (and the same [hasEquity]) get
    the same text, whatever their other values. *)
Theorem findAll_text_ignores_values (e : entity) (query1 query2 : JS.object) :
  JS.keys query1 = JS.keys query2 ->
  forallb (fun k => JS.str_mem k (recognized e)) (JS.keys query1) = true ->
  (e = Position -> JS.get query1 "hasEquity" = JS.get query2 "hasEquity") ->
  exists text params1 params2,
    findAll e (AObject query1) = db_query text params1
    /\ findAll e (AObject query2) = db_query text params2.
Proof.
  intros Hk Hrec Heq.
  destruct e; cbn [recognized findAll] in *; eexists; eexists; eexists.
  - split; [now apply Job_findAll_recognized|].
    rewrite Job_findAll_recognized by (now rewrite <- Hk).
    rewrite <- Hk. unfold Job.where_clause, JS.mapi.
    rewrite (mapi_from_ext
               (fun key idx =>
                  Job.makeKeyStatementsForWhereClauses (AObject query2) key idx)
               (fun key idx =>
                  Job.makeKeyStatementsForWhereClauses (AObject query1) key idx)).
    + reflexivity.
    + intros key idx. unfold Job.makeKeyStatementsForWhereClauses.
      cbn [JS.prop]. now rewrite (Heq eq_refl).
  - split; [now apply Company_findAll_recognized|].
    rewrite Company_findAll_recognized by (now rewrite <- Hk).
    now rewrite <- Hk.
Qed.

Lemma findAll_text_ignores_values_witness :
  exists text params1 params2,
    findAll Organization (AObject [("name", VStr "net")])
    = db_query text params1
    /\ findAll Organization
         (AObject [("name", VStr "x' OR 1=1 --")])
       = db_query text params2.
Proof.
  apply (@findAll_text_ignores_values Organization
           [("name", VStr "net")] [("name", VStr "x' OR 1=1 --")]
           eq_refl eq_refl).
  discriminate.
Defined.

Lemma get_set_same (o : JS.object) (k : string) (w : value) :
  JS.truthy (JS.get o k) = true -> JS.get (JS.set o k w) k = w.
Proof.
  induction o as [|[k' x] o IH]; cbn [JS.get JS.set]; [discriminate|].
  destruct (String.eqb_spec k' k) as [->|Hne]; cbn [JS.get].
  - now rewrite String.eqb_refl.
  - destruct (String.eqb_spec k' k); [contradiction | exact IH].
Qed.

(** X8.  [Job.findAll] writes the wrapped title into the object it was
    given.  So for every filter with recognized keys and a truthy title, a
    second call with the same object sends the same statement but binds
    the title between two pairs of percent signs. *)
Theorem Job_findAll_wraps_again_on_reuse (query : JS.object) (v : value) :
  forallb (fun k => JS.str_mem k Job.validParams) (JS.keys query) = true ->
  JS.get query "title" = v ->
  JS.truthy v = true ->
  exists text params1 params2,
    Job.findAll (AObject query) = db_query text params1
    /\ In (VStr ("%" ++ JS.toString v ++ "%")) params1
    /\ Job.findAll (Job.query_after (AObject query)) = db_query text params2
    /\ In (VStr ("%" ++ ("%" ++ JS.toString v ++ "%") ++ "%")) params2.
Proof.
  intros Hrec Hget Htrue.
  assert (Ht : JS.truthy (JS.get query "title") = true) by now rewrite Hget.
  assert (Hafter : Job.query_after (AObject query)
                   = AObject (JS.set query "title"
                                (VStr ("%" ++ JS.toString v ++ "%")))).
  { unfold Job.query_after. cbn [JS.default_to JS.wrap_if_truthy].
    now rewrite Hget, Htrue. }
  assert (Hget2 : JS.get (JS.set query "title"
                            (VStr ("%" ++ JS.toString v ++ "%"))) "title"
                  = VStr ("%" ++ JS.toString v ++ "%"))
    by now apply get_set_same.
  exists (Job.select_sql (Job.where_clause (AObject query) (JS.keys query))).
  exists (Job.bound_values (Job.query_after (AObject query))).
  exists (Job.bound_values (Job.query_after (Job.query_after (AObject query)))).
  split; [|split; [|split]].
  - now apply Job_findAll_recognized.
  - rewrite Hafter. apply Job_bound_values_in; [|apply wrapped_is_no_flag].
    now apply in_values_set.
  - rewrite Hafter.
    rewrite Job_findAll_recognized by (now rewrite keys_set).
    now rewrite Job_where_clause_set_title.
  - rewrite Hafter. unfold Job.query_after.
    cbn [JS.default_to JS.wrap_if_truthy]. rewrite Hget2.
    cbn [JS.truthy JS.toString append String.eqb negb].
    apply Job_bound_values_in;
      [|exact (wrapped_is_no_flag ("%" ++ JS.toString v ++ "%"))].
    apply (in_values_set
             (JS.set query "title" (VStr ("%" ++ JS.toString v ++ "%")))
             "title"
             (VStr ("%" ++ ("%" ++ JS.toString v ++ "%") ++ "%"))).
    now rewrite Hget2.
Qed.

Lemma Job_findAll_wraps_again_on_reuse_witness :
  exists text params1 params2,
    Job.findAll (AObject [("title", VStr "c")]) = db_query text params1
    /\ In (VStr "%c%") params1
    /\ Job.findAll (Job.query_after (AObject [("title", VStr "c")]))
       = db_query text params2
    /\ In (VStr "%%c%%") params2.
Proof.
  exact (@Job_findAll_wraps_again_on_reuse
           [("title", VStr "c")] (VStr "c") eq_refl eq_refl eq_refl).
Defined.

(** ** The two versions of the job listing *)

(** X9.  The two versions of [Job.findAll] behave alike on every filter
    object that has no truthy title, no [hasEquity] and no value among
    [true], [false], ['true'] and ['false']: the same error, or the same
    statement with the same bound values. *)
Theorem ModelsJob_findAll_agrees (query : JS.object) :
  JS.truthy (JS.get query "title") = false ->
  JS.get query "hasEquity" = VUndefined ->
  (forall x, In x (JS.values query) -> JS.val_mem x Job.flags = false) ->
  ModelsJob.findAll (AObject query) = Job.findAll (AObject query).
Proof.
  intros Htitle Heq Hflags.
  unfold ModelsJob.findAll, Job.findAll,
    ModelsJob.checkForBadQueries, Job.checkForBadQueries.
  cbn [JS.default_to]. rewrite keys_of_object. cbn [lift bind].
  change ModelsJob.validParams with Job.validParams.
  destruct (negb (Nat.eqb (length (filter _ (JS.keys query))) 0));
    [reflexivity|].
  cbn [lift bind].
  assert (Htext :
            JS.join " AND "
              (JS.mapi
                 (fun key idx => ModelsJob.makeKeyStatementsForWhereClauses key idx)
                 (JS.keys query))
            = JS.join " AND "
                (JS.mapi
                   (fun key idx =>
                      Job.makeKeyStatementsForWhereClauses (AObject query) key idx)
                   (JS.keys query))).
  { unfold JS.mapi. f_equal. apply mapi_from_ext. intros key idx.
    unfold Job.makeKeyStatementsForWhereClauses,
      ModelsJob.makeKeyStatementsForWhereClauses.
    cbn [JS.prop]. now rewrite Heq. }
  assert (Hvalues :
            JS.object_values (AObject query)
            = Job.bound_values (JS.wrap_if_truthy (AObject query) "title")).
  { cbn [JS.wrap_if_truthy]. rewrite Htitle.
    unfold Job.bound_values. cbn [JS.object_values JS.prop]. rewrite Heq.
    cbn [JS.strict_eq JS.value_eqb negb].
    symmetry. apply filter_keeps_all.
    intros x Hx. now rewrite (Hflags x Hx). }
  unfold Job.where_clause. now rewrite Htext, Hvalues.
Qed.

Lemma ModelsJob_findAll_agrees_witness :
  ModelsJob.findAll (AObject [("minSalary", VNum 70000)])
  = Job.findAll (AObject [("minSalary", VNum 70000)]).
Proof.
  apply (@ModelsJob_findAll_agrees [("minSalary", VNum 70000)]).
  - reflexivity.
  - reflexivity.
  - intros x [<-|[]]. reflexivity.
Defined.

(** ** Reading and removing a row *)

(** X10.  [get] of either model sends one SELECT bound to the identifier
    alone.  When the database answers no row it throws a [NotFoundError]
    whose message ends with the identifier as the template renders it;
    otherwise it returns the first row of the answer unchanged. *)
Theorem get_returns_first_row_or_not_found
  (store : Type)
  (execute : store -> string -> list value -> store * (error + list row))
  (e : entity) (id : value) (st : store) :
  match execute st (get_sql e) [id] with
  | (st', inr []) =>
      exists message,
        run execute (get_of e id) st
        = (st', [Call (get_sql e) [id]], inl (NotFoundError message))
        /\ exists before, message = before ++ JS.toString id
  | (st', inr (r :: _)) =>
      run execute (get_of e id) st = (st', [Call (get_sql e) [id]], inr r)
  | (st', inl rejected) =>
      run execute (get_of e id) st
      = (st', [Call (get_sql e) [id]], inl rejected)
  end.
Proof.
  destruct e; cbn [get_of get_sql]; unfold Job.get, Company.get, db_query;
    cbn [bind run];
    destruct (execute st _ _) as [st' [rejected|[|r rows]]];
    try reflexivity;
    eexists; (split; [reflexivity | eexists; reflexivity]).
Qed.

(** X11.  [remove] of either model sends one statement, the DELETE bound
    to the identifier alone, whether or not a row has it; it throws a
    [NotFoundError] when the DELETE returns no row and otherwise returns
    nothing, whatever the rows returned. *)
Theorem remove_deletes_in_one_statement
  (store : Type)
  (execute : store -> string -> list value -> store * (error + list row))
  (e : entity) (id : value) (st : store) :
  calls_of execute (remove_of e id) st = [Call (remove_sql e) [id]]
  /\ match execute st (remove_sql e) [id] with
     | (st', inr []) =>
         result_of execute (remove_of e id) st
         = inl (NotFoundError ("No company: " ++ JS.toString id))
     | (st', inr (_ :: _)) => result_of execute (remove_of e id) st = inr tt
     | (st', inl rejected) =>
         result_of execute (remove_of e id) st = inl rejected
     end.
Proof.
  unfold calls_of, result_of.
  destruct e; cbn [remove_of remove_sql];
    unfold Job.remove, Company.remove, db_query; cbn [bind run];
    destruct (execute st _ _) as [st' [rejected|[|r rows]]];
    split; reflexivity.
Qed.

(** ** routes/jobs.js *)

(** X12.  In the POST and PATCH handlers the body is validated before
    anything else: when the validator has messages, the handler hands
    [next] a [BadRequestError] made of all of them and sends the database
    nothing. *)
Theorem routes_validate_before_storage
  (jobNewSchema jobUpdateSchema : JS.object -> list string)
  (store : Type)
  (execute : store -> string -> list value -> store * (error + list row))
  (req : JobRoutes.request) (st : store) :
  (jobNewSchema (JobRoutes.body req) <> [] ->
   serve execute (JobRoutes.post jobNewSchema req) st
   = (st, [], JobRoutes.NextBadRequest (jobNewSchema (JobRoutes.body req))))
  /\ (jobUpdateSchema (JobRoutes.body req) <> [] ->
      serve execute (JobRoutes.patch jobUpdateSchema req) st
      = (st, [],
         JobRoutes.NextBadRequest (jobUpdateSchema (JobRoutes.body req)))).
Proof.
  unfold JobRoutes.post, JobRoutes.patch. split; intros H.
  - destruct (jobNewSchema (JobRoutes.body req)); [contradiction | reflexivity].
  - destruct (jobUpdateSchema (JobRoutes.body req));
      [contradiction | reflexivity].
Qed.

Lemma routes_validate_before_storage_witness :
  serve sample_execute
    (JobRoutes.patch
       (fun _ => ["instance.salary is not of a type(s) integer";
                  "instance.equity must be less than or equal to 1"])
       {| JobRoutes.params := JobRoutes.path_params JobRoutes.patch_pattern "cook";
          JobRoutes.query := AObject [];
          JobRoutes.body := [("salary", VStr "9"); ("equity", VNum 2)] |})
    tt
  = (tt, [],
     JobRoutes.NextBadRequest
       ["instance.salary is not of a type(s) integer";
        "instance.equity must be less than or equal to 1"]).
Proof.
  apply (proj2 (@routes_validate_before_storage
                  (fun _ => [])
                  (fun _ => ["instance.salary is not of a type(s) integer";
                             "instance.equity must be less than or equal to 1"])
                  unit sample_execute
                  {| JobRoutes.params :=
                       JobRoutes.path_params JobRoutes.patch_pattern "cook";
                     JobRoutes.query := AObject [];
                     JobRoutes.body :=
                       [("salary", VStr "9"); ("equity", VNum 2)] |}
                  tt)).
  discriminate.
Defined.

(** X13.  A PATCH whose body is the empty object, which a schema with no
    required property accepts, ends with the [BadRequestError("No data")]
    of [sqlForPartialUpdate] handed to [next]; the database is sent
    nothing. *)
Theorem patch_route_empty_body
  (jobUpdateSchema : JS.object -> list string)
  (store : Type)
  (execute : store -> string -> list value -> store * (error + list row))
  (req : JobRoutes.request) (st : store) :
  JobRoutes.body req = [] ->
  jobUpdateSchema [] = [] ->
  serve execute (JobRoutes.patch jobUpdateSchema req) st
  = (st, [], JobRoutes.Next (BadRequestError "No data")).
Proof.
  intros Hbody Hvalid. unfold JobRoutes.patch.
  rewrite Hbody, Hvalid. reflexivity.
Qed.

Lemma patch_route_empty_body_witness :
  serve sample_execute
    (JobRoutes.patch (fun _ => [])
       {| JobRoutes.params := JobRoutes.path_params JobRoutes.patch_pattern "cook";
          JobRoutes.query := AObject [];
          JobRoutes.body := [] |})
    tt
  = (tt, [], JobRoutes.Next (BadRequestError "No data")).
Proof.
  exact (@patch_route_empty_body (fun _ => []) unit sample_execute
           {| JobRoutes.params :=
                JobRoutes.path_params JobRoutes.patch_pattern "cook";
              JobRoutes.query := AObject [];
              JobRoutes.body := [] |}
           tt eq_refl eq_refl).
Defined.

Lemma Job_findAll_invalid_message (query : JS.object) (k : string) :
  In k (JS.keys query) -> JS.str_mem k Job.validParams = false ->
  Job.findAll (AObject query)
  = Throw (BadRequestError
             (Job.invalid_message
                (filter (fun k => negb (JS.str_mem k Job.validParams))
                   (JS.keys query)))).
Proof.
  intros Hin Hk. unfold Job.findAll, Job.checkForBadQueries.
  cbn [JS.default_to]. rewrite keys_of_object. cbn [lift bind].
  now rewrite (invalid_keys_nonempty Job.validParams (JS.keys query) k Hin Hk).
Qed.

(** X14.  A GET on the listing route whose query string has a key outside
    [title], [minSalary] and [hasEquity] ends with a [BadRequestError]
    handed to [next], its message naming that key; the database is sent
    nothing and no response is sent. *)
Theorem get_all_route_rejects_unrecognized_key
  (store : Type)
  (execute : store -> string -> list value -> store * (error + list row))
  (req : JobRoutes.request) (query : JS.object) (k : string) (st : store) :
  JobRoutes.query req = AObject query ->
  In k (JS.keys query) ->
  JS.str_mem k Job.validParams = false ->
  exists message,
    serve execute (JobRoutes.get_all req) st
    = (st, [], JobRoutes.Next (BadRequestError message))
    /\ occurs_in k message.
Proof.
  intros Hq Hin Hk. eexists. split.
  - unfold JobRoutes.get_all. rewrite Hq.
    rewrite (Job_findAll_invalid_message query k Hin Hk). reflexivity.
  - unfold Job.invalid_message. now apply invalid_key_named.
Qed.

Lemma get_all_route_rejects_unrecognized_key_witness :
  exists message,
    serve sample_execute
      (JobRoutes.get_all
         {| JobRoutes.params := [];
            JobRoutes.query :=
              AObject [("title", VStr "c"); ("minSalary", VStr "40000");
                       ("potato", VStr "soup")];
            JobRoutes.body := [] |})
      tt
    = (tt, [], JobRoutes.Next (BadRequestError message))
    /\ occurs_in "potato" message.
Proof.
  apply (@get_all_route_rejects_unrecognized_key unit sample_execute
           {| JobRoutes.params := [];
              JobRoutes.query :=
                AObject [("title", VStr "c"); ("minSalary", VStr "40000");
                         ("potato", VStr "soup")];
              JobRoutes.body := [] |}
           [("title", VStr "c"); ("minSalary", VStr "40000");
            ("potato", VStr "soup")]
           "potato" tt eq_refl).
  - simpl. tauto.
  - reflexivity.
Defined.

(** X15.  The DELETE route binds the path segment under [handle] and
    reads [req.params.title].  Whatever the segment, the handler sends the
    DELETE bound to [undefined], and when a row comes back it reports
    [undefined] as deleted. *)
Theorem delete_route_ignores_segment
  (store : Type)
  (execute : store -> string -> list value -> store * (error + list row))
  (req : JobRoutes.request) (segment : string) (st : store) :
  JobRoutes.params req
  = JobRoutes.path_params JobRoutes.delete_pattern segment ->
  snd (fst (serve execute (JobRoutes.delete req) st))
  = [Call Job.remove_sql [VUndefined]]
  /\ forall r,
      snd (serve execute (JobRoutes.delete req) st) = JobRoutes.Send r ->
      JobRoutes.json r = JobRoutes.PDeleted VUndefined.
Proof.
  intros Hp. unfold serve, JobRoutes.delete. rewrite Hp.
  cbn [JobRoutes.path_params JobRoutes.delete_pattern JS.get String.eqb
         Ascii.eqb Bool.eqb].
  unfold Job.remove, db_query. cbn [bind JobRoutes.try_catch run].
  destruct (execute st _ _) as [st' [rejected|[|row rows]]];
    cbn [first_row hd_error JobRoutes.try_catch run fst snd];
    (split; [reflexivity|]); intros r H; try discriminate.
  injection H as <-. reflexivity.
Qed.

Lemma delete_route_ignores_segment_witness :
  snd (fst (serve sample_execute
              (JobRoutes.delete
                 {| JobRoutes.params :=
                      JobRoutes.path_params JobRoutes.delete_pattern "manager";
                    JobRoutes.query := AObject [];
                    JobRoutes.body := [] |})
              tt))
  = [Call Job.remove_sql [VUndefined]].
Proof.
  exact (proj1 (@delete_route_ignores_segment unit sample_execute
                  {| JobRoutes.params :=
                       JobRoutes.path_params JobRoutes.delete_pattern "manager";
                     JobRoutes.query := AObject [];
                     JobRoutes.body := [] |}
                  "manager" tt eq_refl)).
Defined.

(** X16.  The GET route of one job binds the path segment under [title]
    and reads it back: the handler sends the SELECT bound to the segment,
    responds 200 with the first row answered, and hands [next] the
    [NotFoundError] naming the segment when no row is answered. *)
Theorem get_one_route_looks_up_segment
  (store : Type)
  (execute : store -> string -> list value -> store * (error + list row))
  (req : JobRoutes.request) (segment : string) (st : store) :
  JobRoutes.params req = JobRoutes.path_params JobRoutes.get_pattern segment ->
  snd (fst (serve execute (JobRoutes.get_one req) st))
  = [Call Job.get_sql [VStr segment]]
  /\ match execute st Job.get_sql [VStr segment] with
     | (_, inr []) =>
         snd (serve execute (JobRoutes.get_one req) st)
         = JobRoutes.Next
             (NotFoundError ("No job with the following title: " ++ segment))
     | (_, inr (r :: _)) =>
         snd (serve execute (JobRoutes.get_one req) st)
         = JobRoutes.Send
             {| JobRoutes.status := 200; JobRoutes.json := JobRoutes.PJob (Some r) |}
     | (_, inl rejected) =>
         snd (serve execute (JobRoutes.get_one req) st)
         = JobRoutes.Next rejected
     end.
Proof.
  intros Hp. unfold serve, JobRoutes.get_one. rewrite Hp.
  cbn [JobRoutes.path_params JobRoutes.get_pattern JS.get String.eqb
         Ascii.eqb Bool.eqb].
  unfold Job.get, db_query. cbn [bind JobRoutes.try_catch run].
  destruct (execute st _ _) as [st' [rejected|[|row rows]]];
    cbn [first_row hd_error JobRoutes.try_catch run fst snd JS.toString];
    split; reflexivity.
Qed.

Lemma get_one_route_looks_up_segment_witness :
  snd (fst (serve sample_execute
              (JobRoutes.get_one
                 {| JobRoutes.params :=
                      JobRoutes.path_params JobRoutes.get_pattern "manager";
                    JobRoutes.query := AObject [];
                    JobRoutes.body := [] |})
              tt))
  = [Call Job.get_sql [VStr "manager"]].
Proof.
  exact (proj1 (@get_one_route_looks_up_segment unit sample_execute
                  {| JobRoutes.params :=
                       JobRoutes.path_params JobRoutes.get_pattern "manager";
                     JobRoutes.query := AObject [];
                     JobRoutes.body := [] |}
                  "manager" tt eq_refl)).
Defined.

(** ** The listing of all companies *)

Lemma Company_filtered_is_not_all (queryKeys : string) :
  Company.filtered_sql queryKeys <> Company.all_sql.
Proof.
  unfold Company.filtered_sql, Company.all_sql, dq. simpl. discriminate.
Qed.

Lemma Query_text {A : Type} (text text' : string) (params params' : list value)
  (k k' : list row -> db A) :
  Query text params k = Query text' params' k' -> text = text'.
Proof.
  intros H.
  change (match Query text params k with
          | Query t _ _ => t
          | _ => text'
          end = text').
  now rewrite H.
Qed.

(** X17.  [Company.findAll] sends the listing without a WHERE clause for
    exactly the arguments that are falsy and have keys: [0], [false] and
    the empty string.  No object, and neither [null] nor a missing
    argument, gets it. *)
Theorem Company_findAll_full_listing_iff (query : argument) :
  Company.findAll query = db_query Company.all_sql []
  <-> exists v,
      query = AValue v /\ JS.truthy v = false
      /\ v <> VUndefined /\ v <> VNull.
Proof.
  split.
  - destruct query as [v|o].
    + destruct v as [| |b|z Hz0|s]; try discriminate.
      * destruct b; [|intros _; exists (VBool false); repeat split; discriminate].
        unfold Company.findAll, db_query.
        cbn [JS.default_to keys_of JS.object_keys lift bind filter length
               Nat.eqb negb JS.arg_truthy JS.truthy].
        intros H. apply Query_text in H.
        now apply Company_filtered_is_not_all in H.
      * destruct (Z.eqb_spec z 0) as [->|Hz].
        -- intros _. exists (VNumber 0 Hz0). repeat split; discriminate.
        -- unfold Company.findAll, db_query.
           cbn [JS.default_to keys_of JS.object_keys lift bind filter length
                  Nat.eqb negb JS.arg_truthy JS.truthy].
           destruct (Z.eqb_spec z 0); [contradiction|]. cbn [negb].
           intros H. apply Query_text in H.
           now apply Company_filtered_is_not_all in H.
      * destruct s as [|c s].
        -- intros _. exists (VStr ""). repeat split; discriminate.
        -- discriminate.
    + unfold Company.findAll. cbn [JS.default_to]. rewrite keys_of_object.
      cbn [lift bind JS.arg_truthy negb].
      destruct (negb (Nat.eqb _ 0)); [discriminate|].
      unfold db_query. cbn [bind]. intros H. apply Query_text in H.
      now apply Company_filtered_is_not_all in H.
  - intros (v & -> & Hf & Hu & Hn).
    now apply Company_findAll_full_listing.
Qed.
